(** * todo.py: a command line task manager

    A shallow embedding of [src/todo.py] (classes [Task] and [Tasks], and
    [main]) together with the properties of its natural-language
    specification.

    Conventions of the embedding:
    - a [datetime] is the integer number of microseconds it denotes ([Z]);
    - a [uuid.UUID] is its 128-bit integer value ([N]); [UUID.__eq__]
      compares exactly that integer;
    - a Python [int] is a [Z]; a [str] is a [string];
    - [self.tasks] is threaded explicitly through every method, and what a
      method prints is returned as a list of output lines;
    - the functions of Python's standard library that the program calls
      ([str.lower], [uuid.UUID], [pickle.dump], [pickle.load]) are the
      fields of the class [PyLib]; the program is embedded over an arbitrary
      instance of it. *)

From Stdlib Require Import ZArith NArith String Ascii List Sorted Permutation Lia.
From stdpp Require Import base decidable option list sorting countable strings gmap.

Local Open Scope Z_scope.

(** ** Exceptions and outcomes *)

Inductive exn :=
  | FileNotFoundError
  | PermissionError
  | EOFError
  | UnpicklingError
  | ValueError.

Inductive outcome (A : Type) :=
  | Ok (a : A)
  | Raise (e : exn).
Arguments Ok {A} a.
Arguments Raise {A} e.

#[global] Instance exn_eq_dec : EqDecision exn.
Proof. solve_decision. Defined.

(** ** class Task *)

Record Task := mkTask {
  created : Z;
  completed : option Z;
  name : string;
  unique_id : N;
  priority : Z;
  due_date : option string
}.

#[global] Instance Task_eq_dec : EqDecision Task.
Proof. solve_decision. Defined.

(** [Task.__init__(self, name, priority, due_date)]; [datetime.now()] and
    [uuid.uuid4()] are the readings [now] and [fresh] of the environment. *)
Definition Task_init (now : Z) (fresh : N)
    (name : string) (priority : Z) (due_date : option string) : Task :=
  {| created := now;
     completed := None;
     name := name;
     unique_id := fresh;
     priority := priority;
     due_date := due_date |}.

(** [Task.completed_task(self)]: [self.completed = datetime.now()]. *)
Definition completed_task (now : Z) (t : Task) : Task :=
  {| created := created t;
     completed := Some now;
     name := name t;
     unique_id := unique_id t;
     priority := priority t;
     due_date := due_date t |}.

(** ** The sort key [lambda x: (x.due_date is None, x.due_date, x.priority)] *)

Definition key : Type := bool * option string * Z.

Definition sort_key (x : Task) : key :=
  (bool_decide (due_date x = None), due_date x, priority x).

(** [False < True] on Python's [bool]. *)
Definition bool_lt (a b : bool) : bool := negb a && b.

(** [<] on the second component. Python's tuple comparison reaches it only
    when the first components are equal and the second ones differ, that is
    on two strings; [None] is never an operand of [<]. *)
Definition due_lt (a b : option string) : bool :=
  match a, b with
  | Some s, Some t => String.ltb s t
  | _, _ => false
  end.

(** Python's [<] on tuples: the first position where the two tuples differ
    decides. *)
Definition key_lt (k1 k2 : key) : bool :=
  let '(b1, d1, p1) := k1 in
  let '(b2, d2, p2) := k2 in
  if negb (bool_decide (b1 = b2)) then bool_lt b1 b2
  else if negb (bool_decide (d1 = d2)) then due_lt d1 d2
  else p1 <? p2.

(** [list.sort(key=...)] is a stable sort that compares keys with [<] only.
    It is embedded as the stable insertion sort: an element moves right past
    exactly the elements whose key is strictly smaller than its own. *)
Fixpoint insert_task (x : Task) (l : list Task) : list Task :=
  match l with
  | [] => [x]
  | y :: l' =>
      if key_lt (sort_key y) (sort_key x) then y :: insert_task x l'
      else x :: y :: l'
  end.

Definition sort_tasks (l : list Task) : list Task :=
  foldr insert_task [] l.

(** [[task for task in self.tasks if task.completed is None]] *)
Definition uncompleted (ts : list Task) : list Task :=
  filter (fun task => completed task = None) ts.

(** ** Output *)

(** One element per [print] call of the program. The two header lines of a
    table are one [ListHeader] (respectively [ReportHeader]); a row of a
    table is kept as the task it renders, since every column of the row is a
    function of that task and of the clock (the age column). *)
Inductive line :=
  | Text (s : string)
  | ListHeader
  | ListRow (task : Task)
  | ReportHeader
  | ReportRow (task : Task).

#[global] Instance line_eq_dec : EqDecision line.
Proof. solve_decision. Defined.

(** [str(uuid)]: ['%032x' % self.int], cut as 8-4-4-4-12. *)
Definition hex_digit (n : N) : ascii :=
  if (n <? 10)%N then ascii_of_N (48 + n) else ascii_of_N (87 + n).

Fixpoint hex_digits (k : nat) (n : N) : string :=
  match k with
  | O => EmptyString
  | S k' => (hex_digits k' (n / 16) ++ String (hex_digit (n mod 16)) EmptyString)%string
  end.

Definition str_UUID (u : N) : string :=
  let h := hex_digits 32 u in
  (substring 0 8 h ++ "-" ++ substring 8 4 h ++ "-" ++ substring 12 4 h ++ "-"
     ++ substring 16 4 h ++ "-" ++ substring 20 12 h)%string.

Definition dquote : ascii := "034"%char.

Definition msg_add_error : string :=
  ("There was an error in creating your task. Run "
     ++ String dquote ("todo -h" ++ String dquote " for usage instructions."))%string.

Definition msg_created (u : N) : string := ("Created task " ++ str_UUID u)%string.
Definition msg_completed (unique_id : string) : string :=
  ("Completed task " ++ unique_id)%string.
Definition msg_deleted (unique_id : string) : string :=
  ("Deleted task " ++ unique_id)%string.
Definition msg_not_found (unique_id : string) : string :=
  ("No task found with ID " ++ unique_id ++ ".")%string.

(** [a in b] on two [str]: [a] occurs in [b] as a contiguous substring. *)
Fixpoint py_in (a b : string) : bool :=
  if String.prefix a b then true
  else match b with
       | EmptyString => false
       | String _ b' => py_in a b'
       end.

(** ** The file system *)

(** What the file system holds at a path. A path that is not in the map has
    no file, and one can be created there. Reading and writing are separate
    permissions, and a directory can refuse the creation of a file. *)
Inductive file :=
  | Regular (content : list Byte.byte)
  | ReadOnly (content : list Byte.byte)
  | NoAccess
  | Uncreatable.

Definition pickle_path : string := ".todo.pickle".

(** [open(path, 'rb')], read to the end. [ReadOnly] is a file that can be
    read and not written, [NoAccess] one that can be neither, [Uncreatable]
    the absence of a file in a directory that refuses to create one. *)
Definition open_rb (fs : gmap string file) (path : string) : outcome (list Byte.byte) :=
  match fs !! path with
  | None => Raise FileNotFoundError
  | Some Uncreatable => Raise FileNotFoundError
  | Some NoAccess => Raise PermissionError
  | Some (Regular content) => Ok content
  | Some (ReadOnly content) => Ok content
  end.

(** [open(path, 'wb')]: creates the file when it is missing and the
    directory allows it, and raises before it changes anything otherwise.
    Once the file is open, [pickle.dump] is taken to write to the end. *)
Definition open_wb (fs : gmap string file) (path : string) : outcome unit :=
  match fs !! path with
  | None => Ok tt
  | Some (Regular _) => Ok tt
  | Some (ReadOnly _) => Raise PermissionError
  | Some NoAccess => Raise PermissionError
  | Some Uncreatable => Raise PermissionError
  end.

(** [try: body except e: handler] *)
Definition try_except {A} (body : outcome A) (e : exn) (handler : outcome A) : outcome A :=
  match body with
  | Ok a => Ok a
  | Raise e' => if decide (e' = e) then handler else Raise e'
  end.

Definition bind {A B} (m : outcome A) (f : A -> outcome B) : outcome B :=
  match m with
  | Ok a => f a
  | Raise e => Raise e
  end.

(** ** The standard library functions the program calls *)

Class PyLib := {
  (** [str.lower] *)
  str_lower : string -> string;
  (** [uuid.UUID(s)]: the integer of the identifier, or [None] when the call
      raises [ValueError] *)
  uuid_UUID : string -> option N;
  (** what [pickle.dump(tasks, f)] writes *)
  pickle_dumps : list Task -> list Byte.byte;
  (** [pickle.load(f)] on a file with the given content *)
  pickle_loads : list Byte.byte -> outcome (list Task)
}.

(** ** class Tasks *)

(** What a method call leaves behind: [self.tasks], the lines printed, and
    the exception that ended the call, if any. *)
Record result := mkResult {
  res_tasks : list Task;
  res_out : list line;
  res_exn : option exn
}.

(** The state of the environment a call reads: the clock for
    [datetime.now()] and the generator for [uuid.uuid4()]. *)
Record Env := mkEnv {
  env_now : Z;
  env_uuid4 : N
}.

Section Program.
Context {L : PyLib}.

(** [Tasks.__init__]:
<<
    try:
        with open('.todo.pickle', 'rb') as pickle_file:
            try:
                self.tasks = pickle.load(pickle_file)
            except EOFError:
                self.tasks = []
    except FileNotFoundError:
        self.tasks = []
>> *)
Definition Tasks_init (fs : gmap string file) : outcome (list Task) :=
  try_except
    (bind (open_rb fs pickle_path) (fun pickle_file =>
       try_except (pickle_loads pickle_file) EOFError (Ok [])))
    FileNotFoundError (Ok []).

(** [Tasks.pickle_tasks]: the file system after the call. *)
Definition pickle_tasks (tasks : list Task) (fs : gmap string file)
    : outcome (gmap string file) :=
  bind (open_wb fs pickle_path) (fun _ =>
    Ok (<[pickle_path := Regular (pickle_dumps tasks)]> fs)).

(** [Tasks.print_tasks] *)
Definition print_tasks (tasks : list Task) : list line :=
  ListHeader :: map ListRow tasks.

(** [Tasks.list] *)
Definition Tasks_list (tasks : list Task) : result :=
  let uncompleted_tasks := sort_tasks (uncompleted tasks) in
  {| res_tasks := tasks;
     res_out := print_tasks uncompleted_tasks;
     res_exn := None |}.

(** [Tasks.report]: [self.tasks.sort(...)] sorts the stored list itself. *)
Definition Tasks_report (tasks : list Task) : result :=
  let tasks' := sort_tasks tasks in
  {| res_tasks := tasks';
     res_out := ReportHeader :: map ReportRow tasks';
     res_exn := None |}.

(** The loop header shared by [done] and [delete]:
<<
    for task in self.tasks:
        if task.unique_id == uuid.UUID(unique_id):
>>
    [uuid.UUID(unique_id)] is evaluated once per iteration. The result is
    the position of the first task whose id is the parsed one, [None] when
    the loop runs to its end, or the exception of the parse. *)
Fixpoint find_task (unique_id' : string) (tasks : list Task) : outcome (option nat) :=
  match tasks with
  | [] => Ok None
  | task :: rest =>
      match uuid_UUID unique_id' with
      | None => Raise ValueError
      | Some u =>
          if (unique_id task =? u)%N then Ok (Some O)
          else match find_task unique_id' rest with
               | Ok (Some i) => Ok (Some (S i))
               | r => r
               end
      end
  end.

(** [Tasks.done] *)
Definition Tasks_done (now : Z) (unique_id' : string) (tasks : list Task) : result :=
  match find_task unique_id' tasks with
  | Raise e => {| res_tasks := tasks; res_out := []; res_exn := Some e |}
  | Ok (Some i) =>
      {| res_tasks := alter (completed_task now) i tasks;
         res_out := [Text (msg_completed unique_id')];
         res_exn := None |}
  | Ok None =>
      {| res_tasks := tasks;
         res_out := [Text (msg_not_found unique_id')];
         res_exn := None |}
  end.

(** [Tasks.delete]: [self.tasks.remove(task)] takes out the first element
    that is [task], which is the one the loop stands on. *)
Definition Tasks_delete (unique_id' : string) (tasks : list Task) : result :=
  match find_task unique_id' tasks with
  | Raise e => {| res_tasks := tasks; res_out := []; res_exn := Some e |}
  | Ok (Some i) =>
      {| res_tasks := delete i tasks;
         res_out := [Text (msg_deleted unique_id')];
         res_exn := None |}
  | Ok None =>
      {| res_tasks := tasks;
         res_out := [Text (msg_not_found unique_id')];
         res_exn := None |}
  end.

(** The inner loop of [Tasks.query]:
<<
    for term in terms:
        if term.lower() in task.name.lower():
            results.append(task)
>> *)
Fixpoint query_terms (task : Task) (terms : list string) : list Task :=
  match terms with
  | [] => []
  | term :: terms' =>
      if py_in (str_lower term) (str_lower (name task))
      then task :: query_terms task terms'
      else query_terms task terms'
  end.

(** The outer loop [for task in uncompleted_tasks]. *)
Fixpoint query_tasks (tasks : list Task) (terms : list string) : list Task :=
  match tasks with
  | [] => []
  | task :: rest => query_terms task terms ++ query_tasks rest terms
  end.

(** [Tasks.query] *)
Definition Tasks_query (terms : list string) (tasks : list Task) : result :=
  let uncompleted_tasks := sort_tasks (uncompleted tasks) in
  let results := query_tasks uncompleted_tasks terms in
  {| res_tasks := tasks;
     res_out := print_tasks results;
     res_exn := None |}.

(** [Tasks.add]. [name] is a [str] here, so [not isinstance(name, str)] is
    false and the guard is [not name]: the name is empty. *)
Definition Tasks_add (env : Env) (name : string) (priority : Z)
    (due_date : option string) (tasks : list Task) : result :=
  if bool_decide (name = EmptyString) then
    {| res_tasks := tasks; res_out := [Text msg_add_error]; res_exn := None |}
  else
    let task := Task_init (env_now env) (env_uuid4 env) name priority due_date in
    {| res_tasks := tasks ++ [task];
       res_out := [Text (msg_created (unique_id task))];
       res_exn := None |}.

(** ** main *)

(** The namespace [parser.parse_args()] returns. *)
Record Args := mkArgs {
  args_add : option string;
  args_priority : Z;
  args_due : option string;
  args_query : option (list string);
  args_list : bool;
  args_done : option string;
  args_delete : option string;
  args_report : bool
}.

(** Truth value of an optional [str]: [None] and [''] are false. *)
Definition truthy_str (o : option string) : bool :=
  match o with
  | Some s => negb (bool_decide (s = EmptyString))
  | None => false
  end.

(** Truth value of an optional list: [None] and [[]] are false. *)
Definition truthy_list {A} (o : option (list A)) : bool :=
  match o with
  | Some (_ :: _) => true
  | _ => false
  end.

(** The [if ... elif ...] chain of [main]. *)
Definition dispatch (args : Args) (env : Env) (tasks : list Task) : result :=
  if truthy_str (args_add args) then
    Tasks_add env (default EmptyString (args_add args)) (args_priority args)
      (args_due args) tasks
  else if args_list args then Tasks_list tasks
  else if truthy_list (args_query args) then
    Tasks_query (default [] (args_query args)) tasks
  else if truthy_str (args_done args) then
    Tasks_done (env_now env) (default EmptyString (args_done args)) tasks
  else if truthy_str (args_delete args) then
    Tasks_delete (default EmptyString (args_delete args)) tasks
  else if args_report args then Tasks_report tasks
  else {| res_tasks := tasks; res_out := []; res_exn := None |}.

Inductive status :=
  | Exited (code : Z)
  | Uncaught (e : exn).

(** What a run of the program leaves behind: the file system, the lines
    printed, the collections handed to [pickle.dump] (one entry per call of
    [pickle_tasks] that reached it), and how the process ended. *)
Record run := mkRun {
  run_fs : gmap string file;
  run_out : list line;
  run_dumped : list (list Task);
  run_status : status
}.

(** [main], after [parser.parse_args()]. [exit()] without an argument ends
    the process with status 0. *)
Definition main (args : Args) (env : Env) (fs : gmap string file) : run :=
  match Tasks_init fs with
  | Raise e =>
      {| run_fs := fs; run_out := []; run_dumped := []; run_status := Uncaught e |}
  | Ok tasks =>
      let r := dispatch args env tasks in
      match res_exn r with
      | Some e =>
          {| run_fs := fs; run_out := res_out r; run_dumped := [];
             run_status := Uncaught e |}
      | None =>
          match pickle_tasks (res_tasks r) fs with
          | Raise e =>
              {| run_fs := fs; run_out := res_out r; run_dumped := [];
                 run_status := Uncaught e |}
          | Ok fs' =>
              {| run_fs := fs'; run_out := res_out r;
                 run_dumped := [res_tasks r]; run_status := Exited 0 |}
          end
      end
  end.

End Program.

(** ** A reference instance of the library

    Executable stand-ins for the four library functions, used to run the
    program on concrete inputs. They agree with CPython on the inputs they
    are run on here: ASCII text, identifiers in the canonical 8-4-4-4-12
    form or shorter than 32 digits, and files written by the program
    itself. *)

(** [str.lower] on ASCII text. *)
Definition ascii_lower (c : ascii) : ascii :=
  let n := N_of_ascii c in
  if ((65 <=? n) && (n <=? 90))%N then ascii_of_N (n + 32) else c.

Fixpoint ascii_str_lower (s : string) : string :=
  match s with
  | EmptyString => EmptyString
  | String c s' => String (ascii_lower c) (ascii_str_lower s')
  end.

(** [uuid.UUID(hex)] on hexadecimal text with or without hyphens: the
    hyphens are dropped, 32 characters must remain, and they are read in
    base 16; a text of another length raises [ValueError]. *)
Definition hex_value (c : ascii) : option N :=
  let n := N_of_ascii c in
  if ((48 <=? n) && (n <=? 57))%N then Some (n - 48)%N
  else if ((97 <=? n) && (n <=? 102))%N then Some (n - 87)%N
  else if ((65 <=? n) && (n <=? 70))%N then Some (n - 55)%N
  else None.

Fixpoint int_base16 (acc : N) (s : string) : option N :=
  match s with
  | EmptyString => Some acc
  | String c s' =>
      match hex_value c with
      | Some d => int_base16 (16 * acc + d)%N s'
      | None => None
      end
  end.

Fixpoint drop_hyphens (s : string) : string :=
  match s with
  | EmptyString => EmptyString
  | String c s' =>
      if bool_decide (c = "-"%char) then drop_hyphens s'
      else String c (drop_hyphens s')
  end.

Definition UUID_of_str (s : string) : option N :=
  let hex := drop_hyphens s in
  if bool_decide (String.length hex = 32%nat) then int_base16 0 hex else None.

(** A serialisation of task lists: the protocol byte [x80], then the bits of
    the list's code, one bit per byte. Reading an empty file raises
    [EOFError], as [pickle.load] does. *)
Definition Task_to_tuple (t : Task) : Z * option Z * string * N * Z * option string :=
  (created t, completed t, name t, unique_id t, priority t, due_date t).

Definition Task_of_tuple (x : Z * option Z * string * N * Z * option string) : Task :=
  let '(c, d, n, u, p, dd) := x in mkTask c d n u p dd.

#[global] Instance Task_countable : Countable Task :=
  inj_countable' Task_to_tuple Task_of_tuple
    (fun t => match t with mkTask _ _ _ _ _ _ => eq_refl end).

Fixpoint bytes_of_pos (p : positive) : list Byte.byte :=
  match p with
  | xH => []
  | xO q => Byte.x00 :: bytes_of_pos q
  | xI q => Byte.x01 :: bytes_of_pos q
  end.

Fixpoint pos_of_bytes (bs : list Byte.byte) : option positive :=
  match bs with
  | [] => Some xH
  | Byte.x00 :: bs' => xO <$> pos_of_bytes bs'
  | Byte.x01 :: bs' => xI <$> pos_of_bytes bs'
  | _ => None
  end.

Definition dumps (tasks : list Task) : list Byte.byte :=
  Byte.x80 :: bytes_of_pos (encode tasks).

Definition loads (bs : list Byte.byte) : outcome (list Task) :=
  match bs with
  | [] => Raise EOFError
  | Byte.x80 :: bs' =>
      match pos_of_bytes bs' ≫= decode with
      | Some tasks => Ok tasks
      | None => Raise UnpicklingError
      end
  | _ => Raise UnpicklingError
  end.

#[global] Instance reference_lib : PyLib := {|
  str_lower := ascii_str_lower;
  uuid_UUID := UUID_of_str;
  pickle_dumps := dumps;
  pickle_loads := loads
|}.

(** Sample data. *)
Definition id_a : N := 0x1b4e28ba2fa111d2883f0016d3cca427.
Definition id_b : N := 0x6fa459eaee8a3ca4894edb77e160355e.
Definition id_a_str : string := "1b4e28ba-2fa1-11d2-883f-0016d3cca427".
Definition id_b_str : string := "6fa459ea-ee8a-3ca4-894e-db77e160355e".
Definition short_id_a : string := "1b4e28ba".

Definition task_milk : Task :=
  mkTask 1000 None "Buy milk" id_a 2 (Some "01/01/2024"%string).
Definition task_report : Task :=
  mkTask 2000 None "Write report" id_b 1 None.

Definition task_dec_2025 : Task :=
  mkTask 3000 None "Renew passport" 11 1 (Some "01/12/2025"%string).
Definition task_jan_2024 : Task :=
  mkTask 4000 None "File taxes" 12 1 (Some "02/01/2024"%string).

Definition fs_milk : gmap string file :=
  <[pickle_path := Regular (dumps [task_milk])]> ∅.
Definition fs_empty_file : gmap string file :=
  <[pickle_path := Regular []]> ∅.

(** A task that carries the id of [task_milk], as a file written by hand
    could hold, and two tasks entered with [--due ''] . *)
Definition task_soy : Task :=
  mkTask 6000 None "Buy soy milk" id_a 3 None.
Definition task_bank : Task :=
  mkTask 7000 None "Call bank" 14 1 (Some EmptyString).
Definition task_post : Task :=
  mkTask 8000 None "Post letter" 15 2 (Some EmptyString).
Definition fs_with_notes : gmap string file :=
  <["notes.txt"%string := Regular []]> fs_milk.

Definition fs_truncated : gmap string file :=
  <[pickle_path := Regular (take 40 (dumps [task_milk]))]> ∅.

(** Command lines with one action flag ([--priority] keeps its default). *)
Definition only_add (name : string) (priority : Z) (due : option string) : Args :=
  mkArgs (Some name) priority due None false None None false.
Definition only_list : Args :=
  mkArgs None 1 None None true None None false.
Definition only_query (terms : list string) : Args :=
  mkArgs None 1 None (Some terms) false None None false.
Definition only_done (unique_id : string) : Args :=
  mkArgs None 1 None None false (Some unique_id) None false.
Definition only_delete (unique_id : string) : Args :=
  mkArgs None 1 None None false None (Some unique_id) false.
Definition only_report : Args :=
  mkArgs None 1 None None false None None true.

(** ** Vocabulary of the specification *)

(** The tasks a table shows, row by row. *)
Definition rows (out : list line) : list Task :=
  omap (fun l => match l with
                 | ListRow task | ReportRow task => Some task
                 | _ => None
                 end) out.

(** The display ordering between an earlier row [ti] and a later row [tj]:
    no task without a due date comes before a task with one; two due dates
    are in ascending order (Python's [<=] on the stored values); and with
    the same due date, or both without one, the priorities are in ascending
    order. *)
Definition displayed_before (ti tj : Task) : Prop :=
  (due_date ti = None -> due_date tj = None) /\
  (forall di dj, due_date ti = Some di -> due_date tj = Some dj ->
     String.leb di dj = true) /\
  (due_date ti = due_date tj -> priority ti <= priority tj).

(** The calendar day that a text in the format of the [--due] help,
    dd/MM/YYYY, denotes, as (year, month, day); and the order of days. *)
Definition digit_value (c : ascii) : option Z :=
  let n := N_of_ascii c in
  if ((48 <=? n) && (n <=? 57))%N then Some (Z.of_N n - 48) else None.

Fixpoint decimal (acc : Z) (s : string) : option Z :=
  match s with
  | EmptyString => Some acc
  | String c s' =>
      match digit_value c with
      | Some d => decimal (10 * acc + d) s'
      | None => None
      end
  end.

Definition day_of_text (s : string) : option (Z * Z * Z) :=
  if bool_decide (String.length s = 10%nat /\
                  String.get 2 s = Some "/"%char /\ String.get 5 s = Some "/"%char)
  then
    match decimal 0 (substring 6 4 s), decimal 0 (substring 3 2 s),
          decimal 0 (substring 0 2 s) with
    | Some y, Some m, Some d => Some (y, m, d)
    | _, _, _ => None
    end
  else None.

Definition day_before (a b : Z * Z * Z) : Prop :=
  let '(y1, m1, d1) := a in
  let '(y2, m2, d2) := b in
  y1 < y2 \/ (y1 = y2 /\ (m1 < m2 \/ (m1 = m2 /\ d1 < d2))).

(** The supplied terms that occur in the name of a task, case ignored, in
    the order and with the repetitions of the command line. *)
Definition matching_terms `{PyLib} (terms : list string) (task : Task) : list string :=
  filter (fun term => py_in (str_lower term) (str_lower (name task)) = true) terms.

(** [save(load())]: what a run that changes nothing does to the files. *)
Definition resave `{PyLib} (fs : gmap string file) : outcome (gmap string file) :=
  bind (Tasks_init fs) (fun tasks => pickle_tasks tasks fs).

(** Three-way comparison of two tasks by due date, then priority, a missing
    due date being the largest. *)
Definition task_compare (x y : Task) : comparison :=
  match due_date x, due_date y with
  | Some a, Some b =>
      match String.compare a b with
      | Eq => priority x ?= priority y
      | c => c
      end
  | Some _, None => Lt
  | None, Some _ => Gt
  | None, None => priority x ?= priority y
  end.

(** [x] may stand before [y] in a sorted list: [key(y) < key(x)] is false. *)
Definition task_le (x y : Task) : Prop :=
  key_lt (sort_key y) (sort_key x) = false.

(** The columns of a table row that are cut or replaced before printing
    ([print_tasks] and [report]): [str(task.unique_id)[:8]], and
<<
    if task.due_date:
        due_date_string = task.due_date
    else:
        due_date_string = "-"
>>
    where [None] and [''] are the false values. *)
Definition short_id (task : Task) : string :=
  substring 0 8 (str_UUID (unique_id task)).

Definition due_date_string (task : Task) : string :=
  match due_date task with
  | Some s => if bool_decide (s = EmptyString) then "-"%string else s
  | None => "-"%string
  end.

(** * Properties *)

(** ** Order on strings *)

Lemma string_compare_refl (s : string) : String.compare s s = Eq.
Proof.
  induction s as [|c s IH]; simpl; [done|].
  unfold Ascii.compare. by rewrite N.compare_refl.
Qed.

Lemma string_compare_eq (s t : string) : String.compare s t = Eq <-> s = t.
Proof.
  split; [apply String.compare_eq_iff|intros ->; apply string_compare_refl].
Qed.

Lemma string_compare_lt_trans (a b c : string) :
  String.compare a b = Lt -> String.compare b c = Lt -> String.compare a c = Lt.
Proof.
  revert b c. induction a as [|x a IH]; intros [|y b] [|z c]; simpl; try done.
  unfold Ascii.compare.
  destruct (N.compare_spec (N_of_ascii x) (N_of_ascii y));
    destruct (N.compare_spec (N_of_ascii y) (N_of_ascii z));
    destruct (N.compare_spec (N_of_ascii x) (N_of_ascii z));
    try done; try lia; eauto.
Qed.

Lemma string_leb_refl (s : string) : String.leb s s = true.
Proof. unfold String.leb. by rewrite string_compare_refl. Qed.

(** ** The sort key is a total preorder on tasks *)

Lemma key_lt_compare (x y : Task) :
  key_lt (sort_key x) (sort_key y) = true <-> task_compare x y = Lt.
Proof.
  unfold key_lt, sort_key, task_compare, bool_lt, due_lt, String.ltb.
  destruct (due_date x) as [a|], (due_date y) as [b|]; simpl.
  - destruct (String.compare a b) eqn:E.
    + apply string_compare_eq in E as ->.
      rewrite bool_decide_true by done. simpl.
      rewrite Z.ltb_lt. by rewrite Z.compare_lt_iff.
    + rewrite bool_decide_false; [done|].
      intros [= Hab]. subst b. by rewrite string_compare_refl in E.
    + rewrite bool_decide_false; [done|].
      intros [= Hab]. subst b. by rewrite string_compare_refl in E.
  - done.
  - done.
  - rewrite Z.ltb_lt. by rewrite Z.compare_lt_iff.
Qed.

Lemma task_compare_antisym (x y : Task) :
  task_compare x y = CompOpp (task_compare y x).
Proof.
  unfold task_compare.
  destruct (due_date x) as [a|], (due_date y) as [b|]; simpl; try done.
  - rewrite (String.compare_antisym a b).
    destruct (String.compare b a); simpl; try done. apply Z.compare_antisym.
  - apply Z.compare_antisym.
Qed.

Lemma task_compare_eq (x y : Task) :
  task_compare x y = Eq <-> due_date x = due_date y /\ priority x = priority y.
Proof.
  unfold task_compare.
  destruct (due_date x) as [a|], (due_date y) as [b|]; simpl.
  - destruct (String.compare a b) eqn:E.
    + apply string_compare_eq in E as ->. rewrite Z.compare_eq_iff.
      split; [by intros ->|by intros [_ ->]].
    + split; [done|]. intros [[= Hab] _]. subst b.
      by rewrite string_compare_refl in E.
    + split; [done|]. intros [[= Hab] _]. subst b.
      by rewrite string_compare_refl in E.
  - split; [done|by intros [? _]].
  - split; [done|by intros [? _]].
  - rewrite Z.compare_eq_iff. split; [by intros ->|by intros [_ ->]].
Qed.

Lemma task_compare_lt_trans (x y z : Task) :
  task_compare x y = Lt -> task_compare y z = Lt -> task_compare x z = Lt.
Proof.
  unfold task_compare.
  destruct (due_date x) as [a|], (due_date y) as [b|], (due_date z) as [c|];
    simpl; try done.
  - destruct (String.compare a b) eqn:Eab; try done;
      destruct (String.compare b c) eqn:Ebc; try done.
    + apply string_compare_eq in Eab as ->. apply string_compare_eq in Ebc as ->.
      rewrite string_compare_refl, !Z.compare_lt_iff. lia.
    + apply string_compare_eq in Eab as ->. by rewrite Ebc.
    + apply string_compare_eq in Ebc as ->. by rewrite Eab.
    + by rewrite (string_compare_lt_trans a b c).
  - rewrite !Z.compare_lt_iff. lia.
Qed.

Lemma task_le_compare (x y : Task) : task_le x y <-> task_compare x y <> Gt.
Proof.
  unfold task_le. rewrite <- not_true_iff_false, key_lt_compare.
  rewrite (task_compare_antisym x y).
  destruct (task_compare y x); simpl; split; done.
Qed.

Lemma task_lt_le (x y : Task) :
  key_lt (sort_key x) (sort_key y) = true -> task_le x y.
Proof.
  rewrite key_lt_compare, task_le_compare. by intros ->.
Qed.

Lemma task_le_trans (x y z : Task) : task_le x y -> task_le y z -> task_le x z.
Proof.
  rewrite !task_le_compare. intros Hxy Hyz Hxz.
  rewrite task_compare_antisym in Hxz.
  destruct (task_compare z x) eqn:Ezx; try done. clear Hxz.
  destruct (task_compare x y) eqn:Exy; try done.
  - apply task_compare_eq in Exy as [Hd Hp].
    apply Hyz. rewrite task_compare_antisym.
    replace (task_compare z y) with (task_compare z x); [by rewrite Ezx|].
    unfold task_compare. by rewrite Hd, Hp.
  - apply Hyz. rewrite task_compare_antisym.
    by rewrite (task_compare_lt_trans z x y).
Qed.

Lemma task_le_displayed (x y : Task) : task_le x y -> displayed_before x y.
Proof.
  rewrite task_le_compare. unfold task_compare, displayed_before, String.leb.
  destruct (due_date x) as [a|], (due_date y) as [b|]; simpl; intros H.
  - split; [done|]. split.
    + intros ?? [= <-] [= <-]. by destruct (String.compare a b).
    + intros [= ->]. rewrite string_compare_refl in H.
      by apply Z.compare_le_iff.
  - done.
  - done.
  - split; [done|]. split; [done|]. intros _. by apply Z.compare_le_iff.
Qed.

(** ** The sort *)

Arguments key_lt : simpl never.
Arguments sort_key : simpl never.

Lemma insert_task_perm (x : Task) (l : list Task) : insert_task x l ≡ₚ x :: l.
Proof.
  induction l as [|y l IH]; simpl; [reflexivity|].
  destruct (key_lt (sort_key y) (sort_key x)); [|reflexivity].
  rewrite IH. apply Permutation_swap.
Qed.

Lemma sort_tasks_perm (l : list Task) : sort_tasks l ≡ₚ l.
Proof.
  induction l as [|x l IH]; simpl; [reflexivity|].
  rewrite insert_task_perm. by constructor.
Qed.

Lemma insert_task_sorted (x : Task) (l : list Task) :
  StronglySorted task_le l -> StronglySorted task_le (insert_task x l).
Proof.
  induction 1 as [|y l Hl IH Hy]; simpl.
  - repeat constructor.
  - destruct (key_lt (sort_key y) (sort_key x)) eqn:E.
    + constructor; [done|].
      rewrite insert_task_perm. constructor; [by apply task_lt_le|done].
    + constructor; [by constructor|].
      constructor; [done|].
      eapply Forall_impl; [exact Hy|]. intros z Hz.
      by apply (task_le_trans x y z).
Qed.

Lemma sort_tasks_sorted (l : list Task) : StronglySorted task_le (sort_tasks l).
Proof.
  induction l as [|x l IH]; simpl; [constructor|by apply insert_task_sorted].
Qed.

Lemma strongly_sorted_lookup {A} (R : A -> A -> Prop) (l : list A) (i j : nat) (x y : A) :
  StronglySorted R l -> (i < j)%nat -> l !! i = Some x -> l !! j = Some y -> R x y.
Proof.
  intros Hl. revert i j. induction Hl as [|a l Hl IH Ha]; intros i j Hij Hi Hj.
  - done.
  - destruct j as [|j]; [lia|]. destruct i as [|i]; simpl in *.
    + injection Hi as <-. rewrite Forall_forall in Ha.
      apply Ha. by eapply list_elem_of_lookup_2.
    + apply (IH i j); [lia|done|done].
Qed.

Lemma sort_tasks_order (l : list Task) (i j : nat) (ti tj : Task) :
  (i < j)%nat -> sort_tasks l !! i = Some ti -> sort_tasks l !! j = Some tj ->
  displayed_before ti tj.
Proof.
  intros Hij Hi Hj. apply task_le_displayed.
  exact (strongly_sorted_lookup task_le _ i j ti tj (sort_tasks_sorted l) Hij Hi Hj).
Qed.

Lemma insert_task_least (x : Task) (l : list Task) :
  Forall (task_le x) l -> insert_task x l = x :: l.
Proof.
  destruct l as [|y l]; simpl; [done|].
  intros Hall. apply Forall_cons in Hall as [Hxy _].
  unfold task_le in Hxy. by rewrite Hxy.
Qed.

Lemma insert_task_uncompleted (x : Task) (l : list Task) :
  StronglySorted task_le l ->
  uncompleted (insert_task x l)
  = if decide (completed x = None) then insert_task x (uncompleted l)
    else uncompleted l.
Proof.
  unfold uncompleted. induction 1 as [|y l Hl IH Hy]; simpl.
  - rewrite filter_cons, filter_nil. by destruct (decide (completed x = None)).
  - destruct (key_lt (sort_key y) (sort_key x)) eqn:E.
    + rewrite (filter_cons _ y (insert_task x l)), IH, (filter_cons _ y l).
      destruct (decide (completed y = None)); [|done].
      destruct (decide (completed x = None)); [|done].
      simpl. by rewrite E.
    + rewrite (filter_cons _ x (y :: l)).
      destruct (decide (completed x = None)); [|done].
      rewrite insert_task_least; [done|].
      apply Forall_forall. intros z Hz.
      apply list_elem_of_filter in Hz as [_ Hz].
      apply elem_of_cons in Hz as [->|Hz]; [exact E|].
      apply (task_le_trans x y z); [exact E|].
      rewrite Forall_forall in Hy. by apply Hy.
Qed.

Lemma sort_tasks_uncompleted (l : list Task) :
  uncompleted (sort_tasks l) = sort_tasks (uncompleted l).
Proof.
  induction l as [|x l IH]; simpl; [done|].
  rewrite (insert_task_uncompleted x _ (sort_tasks_sorted l)), IH.
  unfold uncompleted at 3. rewrite filter_cons.
  by destruct (decide (completed x = None)).
Qed.

Lemma rows_list_rows (l : list Task) : rows (map ListRow l) = l.
Proof. induction l as [|x l IH]; simpl; [done|]. unfold rows in *. simpl. by rewrite IH. Qed.

Lemma rows_report_rows (l : list Task) : rows (map ReportRow l) = l.
Proof. induction l as [|x l IH]; simpl; [done|]. unfold rows in *. simpl. by rewrite IH. Qed.

(** ** list() *)

Lemma list_rows (tasks : list Task) :
  rows (res_out (Tasks_list tasks)) = sort_tasks (uncompleted tasks).
Proof. unfold Tasks_list, print_tasks. simpl. apply rows_list_rows. Qed.

(** What [list()] shows is the open tasks, each once. *)
Lemma list_rows_are_open_tasks (tasks : list Task) :
  rows (res_out (Tasks_list tasks)) ≡ₚ uncompleted tasks.
Proof. rewrite list_rows. apply sort_tasks_perm. Qed.

(** In the table [list()] prints, a row [ti] above a row [tj] satisfies the
    display ordering: if [tj] has a due date then so has [ti] (tasks with a
    due date come before tasks without one); if both have due dates, their
    texts are in ascending order as Python compares strings; and if both
    have the same due date or both have none, their priorities are in
    ascending order. *)
Theorem list_display_order (tasks : list Task) (i j : nat) (ti tj : Task) :
  (i < j)%nat ->
  rows (res_out (Tasks_list tasks)) !! i = Some ti ->
  rows (res_out (Tasks_list tasks)) !! j = Some tj ->
  displayed_before ti tj.
Proof.
  rewrite list_rows. apply sort_tasks_order.
Qed.

Lemma list_display_order_witness : displayed_before task_milk task_report.
Proof.
  apply (list_display_order [task_report; task_milk] 0 1);
    [lia | reflexivity | reflexivity].
Defined.

(** The scenario of the specification: "Buy milk" (due date present) is shown
    before "Write report" (no due date), whatever the stored order. *)
Example list_scenario :
  rows (res_out (Tasks_list [task_milk; task_report])) = [task_milk; task_report] /\
  rows (res_out (Tasks_list [task_report; task_milk])) = [task_milk; task_report].
Proof. split; reflexivity. Qed.

(** The due dates are the texts given to [--due], and are ordered as texts:
    1 December 2025 is shown before 2 January 2024. *)
Example due_dates_ordered_as_text :
  rows (res_out (Tasks_list [task_jan_2024; task_dec_2025]))
  = [task_dec_2025; task_jan_2024].
Proof. reflexivity. Qed.

(** C1. The program on the input where it departs from the claim. Two tasks
    are added from the command line with due dates in the format its help
    names, 02/01/2024 and then 01/12/2025, and a third run lists them: the
    task due on 1 December 2025 is shown above the task due on 2 January
    2024, although the second day is before the first. [main] hands the
    [--due] text to [Task] as it is, and the sort compares the texts. *)
Theorem list_orders_due_texts_not_days :
  let fs1 := run_fs (main (only_add "File taxes" 1 (Some "02/01/2024"%string))
                       (mkEnv 4000 12) ∅) in
  let fs2 := run_fs (main (only_add "Renew passport" 1 (Some "01/12/2025"%string))
                       (mkEnv 4500 11) fs1) in
  rows (run_out (main only_list (mkEnv 5000 13) fs2))
  = [mkTask 4500 None "Renew passport" 11 1 (Some "01/12/2025"%string);
     mkTask 4000 None "File taxes" 12 1 (Some "02/01/2024"%string)] /\
  day_of_text "01/12/2025" = Some (2025, 12, 1) /\
  day_of_text "02/01/2024" = Some (2024, 1, 2) /\
  day_before (2024, 1, 2) (2025, 12, 1).
Proof.
  cbv zeta. split; [vm_compute; reflexivity|].
  split; [vm_compute; reflexivity|].
  split; [vm_compute; reflexivity|].
  simpl. lia.
Qed.

(** ** main: load, one action, save *)

Section Main.
Context {L : PyLib}.

Lemma main_load_error (args : Args) (env : Env) (fs : gmap string file) (e : exn) :
  Tasks_init fs = Raise e ->
  main args env fs
  = {| run_fs := fs; run_out := []; run_dumped := []; run_status := Uncaught e |}.
Proof. unfold main. by intros ->. Qed.

Lemma main_action_error (args : Args) (env : Env) (fs : gmap string file)
    (tasks : list Task) (e : exn) :
  Tasks_init fs = Ok tasks ->
  res_exn (dispatch args env tasks) = Some e ->
  main args env fs
  = {| run_fs := fs; run_out := res_out (dispatch args env tasks);
       run_dumped := []; run_status := Uncaught e |}.
Proof. unfold main. by intros -> ->. Qed.

Lemma main_save_error (args : Args) (env : Env) (fs : gmap string file)
    (tasks : list Task) (e : exn) :
  Tasks_init fs = Ok tasks ->
  res_exn (dispatch args env tasks) = None ->
  open_wb fs pickle_path = Raise e ->
  main args env fs
  = {| run_fs := fs; run_out := res_out (dispatch args env tasks);
       run_dumped := []; run_status := Uncaught e |}.
Proof.
  intros Hload Hexn Hopen. unfold main. rewrite Hload, Hexn.
  unfold pickle_tasks. by rewrite Hopen.
Qed.

Lemma main_action_done (args : Args) (env : Env) (fs : gmap string file)
    (tasks : list Task) :
  Tasks_init fs = Ok tasks ->
  res_exn (dispatch args env tasks) = None ->
  open_wb fs pickle_path = Ok tt ->
  main args env fs
  = {| run_fs := <[pickle_path :=
                     Regular (pickle_dumps (res_tasks (dispatch args env tasks)))]> fs;
       run_out := res_out (dispatch args env tasks);
       run_dumped := [res_tasks (dispatch args env tasks)];
       run_status := Exited 0 |}.
Proof.
  intros Hload Hexn Hopen. unfold main. rewrite Hload, Hexn.
  unfold pickle_tasks. by rewrite Hopen.
Qed.

(** ** report() against list() *)

(** C6. [report()] puts the stored collection itself in the ordering of
    [list()]. The collection it leaves holds the same tasks; any two of
    them, the earlier [ti] and the later [tj], are in the three-key order
    (a task with a due date before one without, then ascending due-date
    values, then ascending priorities); and the table of [list()] is the
    open tasks of that collection, in that order. It is this reordered
    collection that [report()] prints and that [main], when the file can be
    written, hands to [pickle.dump]. [list()] leaves the stored collection
    as it was, and [main] then dumps it in its stored order. *)
Theorem report_sorts_in_place (fs : gmap string file) (env : Env) (tasks : list Task) :
  Tasks_init fs = Ok tasks ->
  open_wb fs pickle_path = Ok tt ->
  res_tasks (Tasks_report tasks) ≡ₚ tasks /\
  (forall i j ti tj, (i < j)%nat ->
     res_tasks (Tasks_report tasks) !! i = Some ti ->
     res_tasks (Tasks_report tasks) !! j = Some tj ->
     displayed_before ti tj) /\
  rows (res_out (Tasks_list tasks)) = uncompleted (res_tasks (Tasks_report tasks)) /\
  rows (res_out (Tasks_report tasks)) = res_tasks (Tasks_report tasks) /\
  run_dumped (main only_report env fs) = [res_tasks (Tasks_report tasks)] /\
  res_tasks (Tasks_list tasks) = tasks /\
  run_dumped (main only_list env fs) = [tasks].
Proof.
  intros Hload Hopen.
  split; [apply sort_tasks_perm|].
  split; [intros i j ti tj; apply sort_tasks_order|].
  split; [rewrite list_rows; symmetry; apply sort_tasks_uncompleted|].
  split; [unfold Tasks_report; simpl; apply rows_report_rows|].
  split; [by rewrite (main_action_done only_report env fs tasks Hload)|].
  split; [done|].
  by rewrite (main_action_done only_list env fs tasks Hload).
Qed.

End Main.

Lemma report_sorts_in_place_witness :
  run_dumped (main only_report (mkEnv 5000 13)
                (<[pickle_path := Regular (dumps [task_report; task_milk])]> ∅))
    = [[task_milk; task_report]] /\
  run_dumped (main only_list (mkEnv 5000 13)
                (<[pickle_path := Regular (dumps [task_report; task_milk])]> ∅))
    = [[task_report; task_milk]].
Proof.
  pose proof (report_sorts_in_place
                (<[pickle_path := Regular (dumps [task_report; task_milk])]> ∅)
                (mkEnv 5000 13) [task_report; task_milk]) as H.
  assert (Tasks_init (<[pickle_path := Regular (dumps [task_report; task_milk])]> ∅)
          = Ok [task_report; task_milk]) as Hload by (vm_compute; reflexivity).
  destruct (H Hload eq_refl) as (_ & _ & _ & _ & Hr & _ & Hl).
  split; [exact Hr | exact Hl].
Defined.

(** ** done() and delete(): the search loop *)

Section Search.
Context {L : PyLib}.

Lemma find_task_unparsed (uid : string) (tasks : list Task) :
  uuid_UUID uid = None -> tasks <> [] -> find_task uid tasks = Raise ValueError.
Proof.
  intros Hparse Hne. destruct tasks as [|task rest]; [done|].
  simpl. by rewrite Hparse.
Qed.

Lemma find_task_absent (uid : string) (u : N) (tasks : list Task) :
  uuid_UUID uid = Some u ->
  (forall t, t ∈ tasks -> unique_id t <> u) ->
  find_task uid tasks = Ok None.
Proof.
  intros Hparse. induction tasks as [|task rest IH]; intros Hall; simpl; [done|].
  rewrite Hparse.
  destruct (N.eqb_spec (unique_id task) u) as [Heq|_].
  - exfalso. apply (Hall task); [left|done].
  - rewrite IH; [done|]. intros t Ht. apply Hall. by right.
Qed.

Lemma find_task_first (uid : string) (tasks : list Task) (i : nat) (t : Task) :
  uuid_UUID uid = Some (unique_id t) ->
  tasks !! i = Some t ->
  (forall j t', (j < i)%nat -> tasks !! j = Some t' -> unique_id t' <> unique_id t) ->
  find_task uid tasks = Ok (Some i).
Proof.
  intros Hparse. revert i.
  induction tasks as [|task rest IH]; intros i Hi Hfirst; [done|].
  simpl. rewrite Hparse. destruct i as [|i]; simpl in Hi.
  - injection Hi as ->. by rewrite N.eqb_refl.
  - destruct (N.eqb_spec (unique_id task) (unique_id t)) as [Heq|_].
    + exfalso. apply (Hfirst O task); [lia|done|done].
    + rewrite (IH i Hi); [done|].
      intros j t' Hj Hj'. apply (Hfirst (S j) t'); [lia|done].
Qed.

Lemma unique_id_first (tasks : list Task) (i : nat) (t : Task) :
  NoDup (unique_id <$> tasks) ->
  tasks !! i = Some t ->
  forall j t', (j < i)%nat -> tasks !! j = Some t' -> unique_id t' <> unique_id t.
Proof.
  intros Hnodup Hi j t' Hj Hj' Heq.
  assert (j = i) as ->; [|lia].
  apply (NoDup_lookup _ j i (unique_id t) Hnodup);
    rewrite list_lookup_fmap; [rewrite Hj'; simpl; by rewrite Heq | by rewrite Hi].
Qed.

Lemma find_task_alter (uid : string) (f : Task -> Task) (i : nat) (tasks : list Task) :
  (forall t, unique_id (f t) = unique_id t) ->
  find_task uid (alter f i tasks) = find_task uid tasks.
Proof.
  intros Hf. revert i. induction tasks as [|task rest IH]; intros i; [done|].
  destruct i as [|i].
  - change (alter f 0%nat (task :: rest)) with (f task :: rest).
    simpl. by rewrite Hf.
  - change (alter f (S i) (task :: rest)) with (task :: alter f i rest).
    simpl. by rewrite IH.
Qed.

Lemma alter_lookup_insert (f : Task -> Task) (i : nat) (tasks : list Task) (t : Task) :
  tasks !! i = Some t -> alter f i tasks = <[i := f t]> tasks.
Proof.
  revert i. induction tasks as [|task rest IH]; intros i Hi; [done|].
  destruct i as [|i]; simpl in Hi.
  - injection Hi as ->. reflexivity.
  - change (alter f (S i) (task :: rest)) with (task :: alter f i rest).
    rewrite (IH i Hi). reflexivity.
Qed.

Lemma dispatch_only_done (uid : string) (env : Env) (tasks : list Task) :
  uid <> EmptyString ->
  dispatch (only_done uid) env tasks = Tasks_done (env_now env) uid tasks.
Proof.
  intros Hne. unfold dispatch, only_done. simpl.
  by rewrite bool_decide_false.
Qed.

Lemma dispatch_only_delete (uid : string) (env : Env) (tasks : list Task) :
  uid <> EmptyString ->
  dispatch (only_delete uid) env tasks = Tasks_delete uid tasks.
Proof.
  intros Hne. unfold dispatch, only_delete. simpl.
  by rewrite bool_decide_false.
Qed.

(** C2, as amended. When the identifier is one [uuid.UUID] accepts and its
    value is the id of no task in the collection, or when the collection is
    empty, [done] and [delete] leave the collection as it is, print the
    "No task found" message and return normally. *)
Theorem unknown_id_not_found (now : Z) (uid : string) (tasks : list Task) :
  (tasks = [] \/
   exists u, uuid_UUID uid = Some u /\ forall t, t ∈ tasks -> unique_id t <> u) ->
  Tasks_done now uid tasks
  = {| res_tasks := tasks; res_out := [Text (msg_not_found uid)]; res_exn := None |} /\
  Tasks_delete uid tasks
  = {| res_tasks := tasks; res_out := [Text (msg_not_found uid)]; res_exn := None |}.
Proof.
  intros H. assert (find_task uid tasks = Ok None) as Hfind.
  { destruct H as [->|(u & Hparse & Hall)]; [done|].
    by apply (find_task_absent uid u). }
  unfold Tasks_done, Tasks_delete. by rewrite Hfind.
Qed.

(** C3, as amended. When the collection is not empty and [uuid.UUID] rejects
    the identifier, [done] and [delete] end with [ValueError] in the first
    iteration of their loop: nothing is printed and the collection is as it
    was. Run from [main] (the identifier is not the empty string, so that
    the flag counts as given), the exception is not caught: [pickle_tasks]
    is not called, the file system is unchanged, and the process does not
    exit with a status of its own. *)
Theorem rejected_id_raises (now : Z) (uid : string) (tasks : list Task)
    (env : Env) (fs : gmap string file) :
  uuid_UUID uid = None ->
  tasks <> [] ->
  Tasks_done now uid tasks
  = {| res_tasks := tasks; res_out := []; res_exn := Some ValueError |} /\
  Tasks_delete uid tasks
  = {| res_tasks := tasks; res_out := []; res_exn := Some ValueError |} /\
  (Tasks_init fs = Ok tasks -> uid <> EmptyString ->
   main (only_done uid) env fs
   = {| run_fs := fs; run_out := []; run_dumped := [];
        run_status := Uncaught ValueError |} /\
   main (only_delete uid) env fs
   = {| run_fs := fs; run_out := []; run_dumped := [];
        run_status := Uncaught ValueError |}).
Proof.
  intros Hparse Hne.
  pose proof (find_task_unparsed uid tasks Hparse Hne) as Hfind.
  assert (forall now', Tasks_done now' uid tasks
          = {| res_tasks := tasks; res_out := []; res_exn := Some ValueError |}) as Hdone.
  { intros now'. unfold Tasks_done. by rewrite Hfind. }
  assert (Tasks_delete uid tasks
          = {| res_tasks := tasks; res_out := []; res_exn := Some ValueError |}) as Hdel.
  { unfold Tasks_delete. by rewrite Hfind. }
  split; [apply Hdone|]. split; [apply Hdel|].
  intros Hload Huid. split.
  - rewrite (main_action_error _ env fs tasks ValueError Hload);
      rewrite (dispatch_only_done uid env tasks Huid), Hdone; done.
  - rewrite (main_action_error _ env fs tasks ValueError Hload);
      rewrite (dispatch_only_delete uid env tasks Huid), Hdel; done.
Qed.

(** C9. [done] on a task, then [done] again with the same identifier: the
    second call returns normally with the "Completed task" message, and the
    collection it leaves is the original one with, at the position of the
    task, the same task whose [completed] field is the time of the second
    call. All the other fields, and all the other tasks, are as before the
    two calls. With a clock that advanced between the two calls, the second
    completion time is later than the first. *)
Theorem done_twice (uid : string) (tasks : list Task) (i : nat) (t : Task)
    (now1 now2 : Z) :
  NoDup (unique_id <$> tasks) ->
  tasks !! i = Some t ->
  uuid_UUID uid = Some (unique_id t) ->
  now1 < now2 ->
  let once := Tasks_done now1 uid tasks in
  let twice := Tasks_done now2 uid (res_tasks once) in
  res_tasks once
  = <[i := {| created := created t; completed := Some now1; name := name t;
              unique_id := unique_id t; priority := priority t;
              due_date := due_date t |}]> tasks /\
  res_exn twice = None /\
  res_out twice = [Text (msg_completed uid)] /\
  res_tasks twice
  = <[i := {| created := created t; completed := Some now2; name := name t;
              unique_id := unique_id t; priority := priority t;
              due_date := due_date t |}]> tasks /\
  exists c1 c2,
    (res_tasks once !! i) ≫= completed = Some c1 /\
    (res_tasks twice !! i) ≫= completed = Some c2 /\
    c1 < c2.
Proof.
  intros Hnodup Hi Hparse Hclock once twice.
  pose proof (find_task_first uid tasks i t Hparse Hi
                (unique_id_first tasks i t Hnodup Hi)) as Hfind.
  assert (res_tasks once = <[i := completed_task now1 t]> tasks) as Honce.
  { unfold once, Tasks_done. rewrite Hfind. simpl.
    by apply alter_lookup_insert. }
  assert (find_task uid (res_tasks once) = Ok (Some i)) as Hfind'.
  { unfold once, Tasks_done. rewrite Hfind. simpl.
    by rewrite find_task_alter. }
  assert (i < length tasks)%nat as Hlen by (by eapply lookup_lt_Some).
  assert (res_tasks twice = <[i := completed_task now2 t]> tasks) as Htwice.
  { unfold twice, Tasks_done. rewrite Hfind'. simpl. rewrite Honce.
    rewrite (alter_lookup_insert _ i _ (completed_task now1 t)).
    - by rewrite list_insert_insert_eq.
    - by apply list_lookup_insert_eq. }
  split; [exact Honce|].
  split; [unfold twice, Tasks_done; by rewrite Hfind'|].
  split; [unfold twice, Tasks_done; by rewrite Hfind'|].
  split; [exact Htwice|].
  exists now1, now2. rewrite Honce, Htwice.
  rewrite !list_lookup_insert_eq by done. done.
Qed.

End Search.

Lemma unknown_id_not_found_witness :
  Tasks_done 5000 id_b_str [task_milk]
  = {| res_tasks := [task_milk]; res_out := [Text (msg_not_found id_b_str)];
       res_exn := None |} /\
  Tasks_delete id_b_str [task_milk]
  = {| res_tasks := [task_milk]; res_out := [Text (msg_not_found id_b_str)];
       res_exn := None |}.
Proof.
  apply (unknown_id_not_found 5000 id_b_str [task_milk]).
  right. exists id_b. split; [vm_compute; reflexivity|].
  intros t Ht. apply list_elem_of_singleton in Ht. subst t.
  vm_compute. discriminate.
Defined.

(** C2 as stated fails on the short id that [list()] displays: it is the id
    of no task, text or value, yet [done] and [delete] print nothing and end
    with [ValueError]. *)
Lemma short_id_not_reported :
  (forall t, t ∈ [task_milk] ->
     short_id_a <> str_UUID (unique_id t) /\
     uuid_UUID short_id_a <> Some (unique_id t)) /\
  Tasks_done 5000 short_id_a [task_milk]
  = {| res_tasks := [task_milk]; res_out := []; res_exn := Some ValueError |} /\
  Tasks_delete short_id_a [task_milk]
  = {| res_tasks := [task_milk]; res_out := []; res_exn := Some ValueError |} /\
  (Text (msg_not_found short_id_a) ∉ res_out (Tasks_done 5000 short_id_a [task_milk])) /\
  (Text (msg_not_found short_id_a) ∉ res_out (Tasks_delete short_id_a [task_milk])).
Proof.
  split.
  { intros t Ht. apply list_elem_of_singleton in Ht. subst t.
    split; vm_compute; discriminate. }
  split; [reflexivity|]. split; [reflexivity|].
  split; vm_compute; apply not_elem_of_nil.
Qed.

Lemma rejected_id_raises_witness :
  uuid_UUID short_id_a = None /\
  main (only_done short_id_a) (mkEnv 5000 13)
    (<[pickle_path := Regular (dumps [task_milk])]> ∅)
  = {| run_fs := <[pickle_path := Regular (dumps [task_milk])]> ∅;
       run_out := []; run_dumped := []; run_status := Uncaught ValueError |}.
Proof.
  split; [reflexivity|].
  apply (rejected_id_raises 5000 short_id_a [task_milk] (mkEnv 5000 13)
           (<[pickle_path := Regular (dumps [task_milk])]> ∅)).
  - reflexivity.
  - discriminate.
  - vm_compute. reflexivity.
  - discriminate.
Defined.

(** C3 as stated fails on an empty collection: the loop body never runs, so
    [uuid.UUID] is not called on the rejected identifier; the "No task
    found" message is printed, and [main] goes on to save and exit. *)
Lemma rejected_id_on_empty_collection :
  uuid_UUID short_id_a = None /\
  Tasks_done 5000 short_id_a []
  = {| res_tasks := []; res_out := [Text (msg_not_found short_id_a)];
       res_exn := None |} /\
  Tasks_delete short_id_a []
  = {| res_tasks := []; res_out := [Text (msg_not_found short_id_a)];
       res_exn := None |} /\
  run_out (main (only_done short_id_a) (mkEnv 5000 13) ∅)
  = [Text (msg_not_found short_id_a)] /\
  run_dumped (main (only_done short_id_a) (mkEnv 5000 13) ∅) = [[]] /\
  run_status (main (only_done short_id_a) (mkEnv 5000 13) ∅) = Exited 0.
Proof. repeat split; vm_compute; reflexivity. Qed.

Lemma done_twice_witness :
  res_tasks (Tasks_done 6000 id_a_str
               (res_tasks (Tasks_done 5000 id_a_str [task_report; task_milk])))
  = [task_report;
     mkTask 1000 (Some 6000) "Buy milk" id_a 2 (Some "01/01/2024"%string)].
Proof.
  apply (done_twice id_a_str [task_report; task_milk] 1 task_milk 5000 6000).
  - vm_compute. apply NoDup_cons. split; [|apply NoDup_singleton].
    intros Hin. apply list_elem_of_singleton in Hin. discriminate.
  - reflexivity.
  - vm_compute. reflexivity.
  - lia.
Defined.

(** ** main: save and exit *)

Section Run.
Context {L : PyLib}.

Lemma find_task_parsed (uid : string) (u : N) (tasks : list Task) :
  uuid_UUID uid = Some u -> exists o, find_task uid tasks = Ok o.
Proof.
  intros Hparse. induction tasks as [|task rest [o IH]]; simpl; [by eexists|].
  rewrite Hparse. destruct (unique_id task =? u)%N; [by eexists|].
  rewrite IH. destruct o; by eexists.
Qed.

(** Every action but [done] and [delete] on an identifier that [uuid.UUID]
    rejects returns normally. *)
Lemma dispatch_completes (args : Args) (env : Env) (tasks : list Task) :
  (forall uid, args_done args = Some uid \/ args_delete args = Some uid ->
     is_Some (uuid_UUID uid)) ->
  res_exn (dispatch args env tasks) = None.
Proof.
  intros Hids. unfold dispatch.
  destruct (truthy_str (args_add args)).
  { unfold Tasks_add. by destruct (bool_decide _). }
  destruct (args_list args); [done|].
  destruct (truthy_list (args_query args)); [done|].
  destruct (args_done args) as [uid|] eqn:Hdone; simpl.
  - destruct (bool_decide (uid = EmptyString)); simpl.
    + destruct (args_delete args) as [uid'|] eqn:Hdel; simpl.
      * destruct (bool_decide (uid' = EmptyString)); simpl.
        -- by destruct (args_report args).
        -- destruct (Hids uid' (or_intror eq_refl)) as [u Hu].
           destruct (find_task_parsed uid' u tasks Hu) as [o Ho].
           unfold Tasks_delete. rewrite Ho. by destruct o.
      * by destruct (args_report args).
    + destruct (Hids uid (or_introl eq_refl)) as [u Hu].
      destruct (find_task_parsed uid u tasks Hu) as [o Ho].
      unfold Tasks_done. rewrite Ho. by destruct o.
  - destruct (args_delete args) as [uid'|] eqn:Hdel; simpl.
    + destruct (bool_decide (uid' = EmptyString)); simpl.
      * by destruct (args_report args).
      * destruct (Hids uid' (or_intror eq_refl)) as [u Hu].
        destruct (find_task_parsed uid' u tasks Hu) as [o Ho].
        unfold Tasks_delete. rewrite Ho. by destruct o.
    + by destruct (args_report args).
Qed.


(** ** add() *)

(** C8. [add] with the empty name leaves the collection as it is and prints
    one line, the error message, whose text is given here character by
    character (the character 34 is the double quote); run from [main],
    whatever is dumped is the collection that was loaded, and it is dumped
    when the file can be written. [add] with any other name appends one
    task, built from the arguments, open, created now and carrying the fresh
    id, and prints one line, "Created task " followed by the text of that
    id; the collection is one longer. *)
Theorem add_validates_name (env : Env) (name' : string) (priority' : Z)
    (due : option string) (tasks : list Task) (fs : gmap string file) :
  (name' = EmptyString ->
   Tasks_add env name' priority' due tasks
   = {| res_tasks := tasks;
        res_out :=
          [Text ("There was an error in creating your task. Run "
                 ++ String "034"%char
                      ("todo -h" ++ String "034"%char " for usage instructions."))%string];
        res_exn := None |} /\
   (Tasks_init fs = Ok tasks ->
    forall dumped,
      dumped ∈ run_dumped (main (only_add name' priority' due) env fs) ->
      dumped = tasks) /\
   (Tasks_init fs = Ok tasks -> open_wb fs pickle_path = Ok tt ->
    run_dumped (main (only_add name' priority' due) env fs) = [tasks])) /\
  (name' <> EmptyString ->
   Tasks_add env name' priority' due tasks
   = {| res_tasks :=
          tasks ++ [ {| created := env_now env; completed := None; name := name';
                        unique_id := env_uuid4 env; priority := priority';
                        due_date := due |} ];
        res_out := [Text ("Created task " ++ str_UUID (env_uuid4 env))%string];
        res_exn := None |} /\
   length (res_tasks (Tasks_add env name' priority' due tasks)) = S (length tasks)).
Proof.
  split.
  - intros ->. split; [done|].
    assert (res_exn (dispatch (only_add EmptyString priority' due) env tasks) = None)
      as Hexn by done.
    split.
    + intros Hload dumped.
      destruct (open_wb fs pickle_path) as [[]|e] eqn:Hopen.
      * rewrite (main_action_done _ env fs tasks Hload Hexn Hopen). simpl.
        intros Hin. by apply list_elem_of_singleton in Hin.
      * rewrite (main_save_error _ env fs tasks e Hload Hexn Hopen). simpl.
        intros Hin. by apply not_elem_of_nil in Hin.
    + intros Hload Hopen.
      by rewrite (main_action_done _ env fs tasks Hload Hexn Hopen).
  - intros Hne. unfold Tasks_add. rewrite bool_decide_false by done.
    split; [done|]. simpl. rewrite length_app. simpl. lia.
Qed.

(** ** load *)

(** C4, as amended. [Tasks.__init__] yields the empty collection when the
    file is missing, and when the file can be read and [pickle.load] raises
    [EOFError] on its content, as it does on an empty file; it yields what
    [pickle.load] returns when it returns. Every other error is left
    uncaught: an error of [open] other than [FileNotFoundError], and an
    error of [pickle.load] other than [EOFError] and [FileNotFoundError],
    among them the [UnpicklingError] of a file cut inside a pickled value.
    [main] then ends with that exception, before any action, without
    printing and without saving. *)
Theorem load_fails_open (fs : gmap string file) :
  (open_rb fs pickle_path = Raise FileNotFoundError -> Tasks_init fs = Ok []) /\
  (forall content,
     open_rb fs pickle_path = Ok content ->
     pickle_loads content = Raise EOFError ->
     Tasks_init fs = Ok []) /\
  (forall content tasks,
     open_rb fs pickle_path = Ok content ->
     pickle_loads content = Ok tasks ->
     Tasks_init fs = Ok tasks) /\
  (forall content e,
     open_rb fs pickle_path = Ok content ->
     pickle_loads content = Raise e ->
     e <> EOFError -> e <> FileNotFoundError ->
     Tasks_init fs = Raise e) /\
  (forall content,
     open_rb fs pickle_path = Ok content ->
     pickle_loads content = Raise UnpicklingError ->
     Tasks_init fs = Raise UnpicklingError) /\
  (forall e,
     open_rb fs pickle_path = Raise e -> e <> FileNotFoundError ->
     Tasks_init fs = Raise e) /\
  (forall e args env,
     Tasks_init fs = Raise e ->
     main args env fs
     = {| run_fs := fs; run_out := []; run_dumped := []; run_status := Uncaught e |}).
Proof.
  assert (forall content e,
            open_rb fs pickle_path = Ok content ->
            pickle_loads content = Raise e ->
            e <> EOFError -> e <> FileNotFoundError ->
            Tasks_init fs = Raise e) as Hother.
  { intros content e Hfile Hload He1 He2. unfold Tasks_init.
    rewrite Hfile. simpl. rewrite Hload. simpl.
    rewrite decide_False by done. simpl. by rewrite decide_False. }
  split; [unfold Tasks_init; by intros ->|].
  split; [unfold Tasks_init; intros content -> Hload; simpl; by rewrite Hload|].
  split; [unfold Tasks_init; intros content tasks -> Hload; simpl; by rewrite Hload|].
  split; [exact Hother|].
  split; [intros content Hfile Hload; by apply (Hother content)|].
  split.
  { intros e He Hne. unfold Tasks_init. rewrite He. simpl. by rewrite decide_False. }
  intros e args env He. by apply main_load_error.
Qed.

(** ** query() *)

Lemma query_terms_replicate (task : Task) (terms : list string) :
  query_terms task terms = replicate (length (matching_terms terms task)) task.
Proof.
  unfold matching_terms. induction terms as [|term terms IH]; simpl; [done|].
  rewrite filter_cons.
  destruct (py_in (str_lower term) (str_lower (name task))) eqn:E.
  - rewrite decide_True by done. simpl. by rewrite IH.
  - rewrite decide_False by done. exact IH.
Qed.

Lemma query_tasks_bind (tasks : list Task) (terms : list string) :
  query_tasks tasks terms
  = tasks ≫= (fun task => replicate (length (matching_terms terms task)) task).
Proof.
  induction tasks as [|task rest IH]; simpl; [done|].
  by rewrite query_terms_replicate, IH.
Qed.

Lemma remove_dups_NoDup (l : list string) : NoDup l -> remove_dups l = l.
Proof.
  induction 1 as [|x l Hx Hl IH]; simpl; [done|].
  destruct (decide_rel elem_of x l); [done|by rewrite IH].
Qed.

(** C5, as amended. [query(terms)] leaves the collection as it is. Its table
    goes through the open tasks in the order [list()] shows them, and shows
    each of them once for every supplied term, at every position of the
    sequence, that occurs in its name, case ignored: a term supplied twice
    counts twice. With pairwise distinct terms, that is once per distinct
    matching term. *)
Theorem query_emits_once_per_term (terms : list string) (tasks : list Task) :
  res_tasks (Tasks_query terms tasks) = tasks /\
  rows (res_out (Tasks_list tasks)) = sort_tasks (uncompleted tasks) /\
  rows (res_out (Tasks_query terms tasks))
  = sort_tasks (uncompleted tasks)
      ≫= (fun task => replicate (length (matching_terms terms task)) task) /\
  (NoDup terms ->
   forall task,
     length (matching_terms terms task)
     = length (remove_dups (matching_terms terms task))).
Proof.
  split; [done|]. split; [apply list_rows|]. split.
  - unfold Tasks_query, print_tasks. simpl.
    rewrite rows_list_rows. apply query_tasks_bind.
  - intros Hnodup task. rewrite remove_dups_NoDup; [done|].
    unfold matching_terms. by apply NoDup_filter.
Qed.

(** ** save, then load *)

(** C10. With a [pickle] whose [load] returns what [dump] was given, loading
    after a save yields the collection saved, and [save(load())] applied to
    what [save(load())] wrote writes the same files again. *)
Theorem save_load_roundtrip (tasks : list Task) (fs fs' : gmap string file) :
  (forall l, pickle_loads (pickle_dumps l) = Ok l) ->
  (pickle_tasks tasks fs = Ok fs' -> Tasks_init fs' = Ok tasks) /\
  (resave fs = Ok fs' -> resave fs' = Ok fs').
Proof.
  intros Hrt.
  assert (forall ts gs gs', pickle_tasks ts gs = Ok gs' ->
            gs' = <[pickle_path := Regular (pickle_dumps ts)]> gs) as Hsave.
  { intros ts gs gs'. unfold pickle_tasks.
    destruct (open_wb gs pickle_path); simpl; congruence. }
  assert (forall ts gs, Tasks_init (<[pickle_path := Regular (pickle_dumps ts)]> gs)
                        = Ok ts) as Hload.
  { intros ts gs. unfold Tasks_init, open_rb.
    rewrite lookup_insert_eq. simpl. by rewrite Hrt. }
  split.
  - intros H. rewrite (Hsave _ _ _ H). apply Hload.
  - unfold resave. destruct (Tasks_init fs) as [ts|e] eqn:Hfs; simpl; [|done].
    intros H. rewrite (Hsave _ _ _ H), Hload. simpl.
    unfold pickle_tasks, open_wb. rewrite lookup_insert_eq. simpl.
    by rewrite insert_insert_eq.
Qed.

End Run.

(** ** The reference instance at work *)

Lemma pos_of_bytes_of_pos (p : positive) : pos_of_bytes (bytes_of_pos p) = Some p.
Proof. induction p as [p IH|p IH|]; simpl; [by rewrite IH..|done]. Qed.

Lemma loads_dumps (tasks : list Task) : loads (dumps tasks) = Ok tasks.
Proof.
  unfold loads, dumps. rewrite pos_of_bytes_of_pos. simpl.
  by rewrite decode_encode.
Qed.



(** From the command line, [--add ''] is a false value for [if args.add]:
    no action runs, nothing is printed, and the loaded collection is saved. *)
Example add_empty_through_main :
  run_out (main (only_add "" 1 None) (mkEnv 5000 13) fs_milk) = [] /\
  run_dumped (main (only_add "" 1 None) (mkEnv 5000 13) fs_milk) = [[task_milk]] /\
  run_status (main (only_add "" 1 None) (mkEnv 5000 13) fs_milk) = Exited 0.
Proof. repeat split; vm_compute; reflexivity. Qed.

Lemma add_validates_name_witness :
  Tasks_add (mkEnv 5000 id_b) "" 1 None [task_milk]
  = {| res_tasks := [task_milk];
       res_out :=
         [Text ("There was an error in creating your task. Run "
                ++ String "034"%char
                     ("todo -h" ++ String "034"%char " for usage instructions."))%string];
       res_exn := None |} /\
  Tasks_add (mkEnv 5000 id_b) "Write report" 1 None [task_milk]
  = {| res_tasks := [task_milk; mkTask 5000 None "Write report" id_b 1 None];
       res_out := [Text "Created task 6fa459ea-ee8a-3ca4-894e-db77e160355e"];
       res_exn := None |}.
Proof.
  split.
  - apply (add_validates_name (mkEnv 5000 id_b) "" 1 None [task_milk] fs_milk).
    reflexivity.
  - apply (add_validates_name (mkEnv 5000 id_b) "Write report" 1 None [task_milk]
             fs_milk).
    discriminate.
Defined.

Lemma load_fails_open_witness :
  Tasks_init (∅ : gmap string file) = Ok [] /\
  Tasks_init fs_empty_file = Ok [] /\
  Tasks_init fs_milk = Ok [task_milk] /\
  Tasks_init fs_truncated = Raise UnpicklingError.
Proof.
  split; [|split; [|split]].
  - apply (load_fails_open ∅). reflexivity.
  - destruct (load_fails_open fs_empty_file) as (_ & Heof & _).
    apply (Heof []); reflexivity.
  - destruct (load_fails_open fs_milk) as (_ & _ & Hok & _).
    apply (Hok (dumps [task_milk])); [reflexivity|apply loads_dumps].
  - destruct (load_fails_open fs_truncated) as (_ & _ & _ & _ & Hcut & _).
    apply (Hcut (take 40 (dumps [task_milk]))); [reflexivity|].
    vm_compute. reflexivity.
Defined.

(** C4 as stated fails on a truncated file: the file that holds the first 40
    bytes of a saved collection exists and is cut short, [pickle.load]
    raises [UnpicklingError] on it, and [Tasks.__init__] and [main] end with
    that exception instead of starting from the empty collection. *)
Lemma truncated_file_is_fatal :
  pickle_loads (pickle_dumps [task_milk]) = Ok [task_milk] /\
  open_rb fs_truncated pickle_path = Ok (take 40 (pickle_dumps [task_milk])) /\
  (length (take 40 (pickle_dumps [task_milk])) < length (pickle_dumps [task_milk]))%nat /\
  Tasks_init fs_truncated = Raise UnpicklingError /\
  Tasks_init fs_truncated <> Ok [] /\
  run_status (main only_list (mkEnv 5000 13) fs_truncated) = Uncaught UnpicklingError.
Proof.
  split; [apply loads_dumps|].
  split; [reflexivity|].
  split; [vm_compute; lia|].
  split; [vm_compute; reflexivity|].
  split; [vm_compute; discriminate|].
  vm_compute. reflexivity.
Qed.

Lemma query_emits_once_per_term_witness :
  length (matching_terms ["MILK"; "buy"; "tea"]%string task_milk)
  = length (remove_dups (matching_terms ["MILK"; "buy"; "tea"]%string task_milk)).
Proof.
  destruct (query_emits_once_per_term ["MILK"; "buy"; "tea"]%string [task_milk])
    as (_ & _ & _ & Hdistinct).
  apply Hdistinct.
  apply (bool_decide_unpack (NoDup ["MILK"; "buy"; "tea"]%string)).
  vm_compute. exact I.
Defined.

(** [query] on two terms that both occur in a name shows the task twice. *)
Example query_two_terms :
  rows (res_out (Tasks_query ["MILK"; "buy"; "tea"]%string [task_report; task_milk]))
  = [task_milk; task_milk].
Proof. reflexivity. Qed.

(** C5 as stated fails when a term is repeated: the name matches one
    distinct supplied term, and the task is shown twice. *)
Lemma repeated_term_emitted_twice :
  length (remove_dups (matching_terms ["milk"; "milk"]%string task_milk)) = 1%nat /\
  rows (res_out (Tasks_query ["milk"; "milk"]%string [task_milk]))
  = [task_milk; task_milk].
Proof. split; vm_compute; reflexivity. Qed.

Lemma save_load_roundtrip_witness :
  Tasks_init fs_milk = Ok [task_milk] /\
  resave (<[pickle_path := Regular (dumps [])]> ∅)
  = Ok (<[pickle_path := Regular (dumps [])]> ∅).
Proof.
  split.
  - apply (save_load_roundtrip (L := reference_lib) [task_milk] ∅ fs_milk loads_dumps).
    reflexivity.
  - apply (save_load_roundtrip (L := reference_lib) [] ∅
             (<[pickle_path := Regular (dumps [])]> ∅) loads_dumps).
    reflexivity.
Defined.

(** * Further properties of the program *)

(** ** done() and delete() on an identifier that is found *)

Section Found.
Context {L : PyLib}.

Lemma find_task_Some_inv (uid : string) (tasks : list Task) (i : nat) :
  find_task uid tasks = Ok (Some i) ->
  exists t, tasks !! i = Some t /\ uuid_UUID uid = Some (unique_id t) /\
    forall j t', (j < i)%nat -> tasks !! j = Some t' -> unique_id t' <> unique_id t.
Proof.
  revert i. induction tasks as [|task rest IH]; intros i; simpl; [done|].
  destruct (uuid_UUID uid) as [u|] eqn:Hparse; [|done].
  destruct (N.eqb_spec (unique_id task) u) as [Heq|Hne].
  - intros [= <-]. exists task. split; [done|]. split; [by rewrite Heq|].
    intros j t' Hj. lia.
  - destruct (find_task uid rest) as [[k|]|e] eqn:Hrest; try done.
    intros [= <-]. destruct (IH k eq_refl) as (t & Hk & Hu & Hfirst).
    exists t. split; [done|]. split; [done|].
    intros [|j] t' Hj Hj'; simpl in Hj'.
    + injection Hj' as <-. congruence.
    + apply (Hfirst j t'); [lia|done].
Qed.

Lemma find_task_raise_inv (uid : string) (tasks : list Task) (e : exn) :
  find_task uid tasks = Raise e ->
  e = ValueError /\ tasks <> [] /\ uuid_UUID uid = None.
Proof.
  induction tasks as [|task rest IH]; simpl; [done|].
  destruct (uuid_UUID uid) as [u|] eqn:Hparse.
  - destruct (unique_id task =? u)%N; [done|].
    destruct (find_task uid rest) as [[k|]|e'] eqn:Hrest; try done.
    intros [= <-]. by destruct (IH eq_refl) as (_ & _ & ?).
  - by intros [= <-].
Qed.

Lemma other_ids_after_delete (tasks : list Task) (i : nat) (t : Task) :
  NoDup (unique_id <$> tasks) ->
  tasks !! i = Some t ->
  forall t', t' ∈ delete i tasks -> unique_id t' <> unique_id t.
Proof.
  intros Hnodup Hi t' Hin Heq.
  rewrite <- (take_drop_middle tasks i t Hi) in Hnodup.
  rewrite fmap_app, fmap_cons in Hnodup.
  apply NoDup_app in Hnodup as (_ & Hdisj & Hright).
  apply NoDup_cons in Hright as [Hnotin _].
  rewrite delete_take_drop in Hin. apply elem_of_app in Hin as [Hin|Hin].
  - apply (Hdisj (unique_id t)); [|left].
    rewrite <- Heq. apply list_elem_of_fmap. by exists t'.
  - apply Hnotin. rewrite <- Heq. apply list_elem_of_fmap. by exists t'.
Qed.

(** X1. [done] with the identifier of a task completes the first task, in
    stored order, that carries this id: it becomes the same task with
    [completed] set to the current time, every other position is as before,
    and "Completed task" is printed with the text that was given. *)
Theorem done_completes_first_match (now : Z) (uid : string) (tasks : list Task)
    (i : nat) (t : Task) :
  uuid_UUID uid = Some (unique_id t) ->
  tasks !! i = Some t ->
  (forall j t', (j < i)%nat -> tasks !! j = Some t' -> unique_id t' <> unique_id t) ->
  Tasks_done now uid tasks
  = {| res_tasks := <[i := completed_task now t]> tasks;
       res_out := [Text (msg_completed uid)];
       res_exn := None |}.
Proof.
  intros Hparse Hi Hfirst. unfold Tasks_done.
  rewrite (find_task_first uid tasks i t Hparse Hi Hfirst).
  by rewrite (alter_lookup_insert _ i tasks t Hi).
Qed.

(** X2. [delete] with the identifier of a task removes the first task, in
    stored order, that carries this id: the tasks before it and after it
    stay, in their order, the collection is one shorter, and "Deleted task"
    is printed with the text that was given. *)
Theorem delete_removes_first_match (uid : string) (tasks : list Task)
    (i : nat) (t : Task) :
  uuid_UUID uid = Some (unique_id t) ->
  tasks !! i = Some t ->
  (forall j t', (j < i)%nat -> tasks !! j = Some t' -> unique_id t' <> unique_id t) ->
  Tasks_delete uid tasks
  = {| res_tasks := take i tasks ++ drop (S i) tasks;
       res_out := [Text (msg_deleted uid)];
       res_exn := None |} /\
  S (length (res_tasks (Tasks_delete uid tasks))) = length tasks.
Proof.
  intros Hparse Hi Hfirst. unfold Tasks_delete.
  rewrite (find_task_first uid tasks i t Hparse Hi Hfirst). simpl.
  split; [by rewrite delete_take_drop|].
  rewrite length_delete by eauto.
  apply lookup_lt_Some in Hi. lia.
Qed.

(** X3. With unique ids, once a task is deleted its identifier is unknown:
    [done] and [delete] with it leave the remaining collection as it is and
    print "No task found". *)
Theorem deleted_id_not_found (now : Z) (uid : string) (tasks : list Task)
    (i : nat) (t : Task) :
  NoDup (unique_id <$> tasks) ->
  tasks !! i = Some t ->
  uuid_UUID uid = Some (unique_id t) ->
  let rest := res_tasks (Tasks_delete uid tasks) in
  rest = delete i tasks /\
  Tasks_done now uid rest
  = {| res_tasks := rest; res_out := [Text (msg_not_found uid)]; res_exn := None |} /\
  Tasks_delete uid rest
  = {| res_tasks := rest; res_out := [Text (msg_not_found uid)]; res_exn := None |}.
Proof.
  intros Hnodup Hi Hparse rest.
  assert (rest = delete i tasks) as ->.
  { unfold rest, Tasks_delete.
    by rewrite (find_task_first uid tasks i t Hparse Hi
                  (unique_id_first tasks i t Hnodup Hi)). }
  split; [done|].
  pose proof (find_task_absent uid (unique_id t) (delete i tasks) Hparse
                (other_ids_after_delete tasks i t Hnodup Hi)) as Hfind.
  unfold Tasks_done, Tasks_delete. by rewrite Hfind.
Qed.

(** X4. With unique ids, after [done] on a task, [list()] shows no task with
    its id, and [report()] shows it with its completion time. *)
Theorem done_moves_task_to_report (now : Z) (uid : string) (tasks : list Task)
    (i : nat) (t : Task) :
  NoDup (unique_id <$> tasks) ->
  tasks !! i = Some t ->
  uuid_UUID uid = Some (unique_id t) ->
  let after := res_tasks (Tasks_done now uid tasks) in
  (forall t', t' ∈ rows (res_out (Tasks_list after)) -> unique_id t' <> unique_id t) /\
  completed_task now t ∈ rows (res_out (Tasks_report after)).
Proof.
  intros Hnodup Hi Hparse after.
  assert (after = <[i := completed_task now t]> tasks) as ->.
  { unfold after, Tasks_done.
    rewrite (find_task_first uid tasks i t Hparse Hi
               (unique_id_first tasks i t Hnodup Hi)).
    simpl. by apply alter_lookup_insert. }
  assert (i < length tasks)%nat as Hlen by (by eapply lookup_lt_Some).
  split.
  - intros t'. rewrite list_rows, sort_tasks_perm. unfold uncompleted.
    rewrite list_elem_of_filter. intros [Hopen Hin] Heq.
    apply list_elem_of_lookup in Hin as [j Hj].
    apply list_lookup_insert_Some in Hj as [(-> & <- & _)|(Hne & Hj)]; [done|].
    assert (j = i) as ->; [|done].
    apply (NoDup_lookup _ j i (unique_id t) Hnodup);
      rewrite list_lookup_fmap; [rewrite Hj; simpl; by rewrite Heq|by rewrite Hi].
  - unfold Tasks_report. simpl. rewrite rows_report_rows, sort_tasks_perm.
    by apply list_elem_of_insert.
Qed.

(** X5. Whatever the identifier, [done] keeps the length of the collection
    and, at every position, every field of the task but [completed], which
    is either as before or the current time. *)
Theorem done_changes_only_completed (now : Z) (uid : string) (tasks : list Task) :
  length (res_tasks (Tasks_done now uid tasks)) = length tasks /\
  forall j t', res_tasks (Tasks_done now uid tasks) !! j = Some t' ->
    exists t, tasks !! j = Some t /\
      created t' = created t /\ name t' = name t /\
      unique_id t' = unique_id t /\ priority t' = priority t /\
      due_date t' = due_date t /\
      (completed t' = completed t \/ completed t' = Some now).
Proof.
  unfold Tasks_done. destruct (find_task uid tasks) as [[i|]|e]; simpl.
  - split; [apply length_alter|]. intros j t'.
    rewrite list_lookup_alter. destruct (decide (i = j)) as [->|Hne].
    + destruct (tasks !! j) as [t|]; simpl; [|done].
      intros [= <-]. exists t. simpl. by repeat split; try right.
    + intros Hj. exists t'. by repeat split; try left.
  - split; [done|]. intros j t' Hj. exists t'. by repeat split; try left.
  - split; [done|]. intros j t' Hj. exists t'. by repeat split; try left.
Qed.

(** X6. Whatever the identifier, [delete] leaves a sublist of the collection
    (the remaining tasks are unchanged and in their order) that is at most
    one task shorter. *)
Theorem delete_removes_at_most_one (uid : string) (tasks : list Task) :
  res_tasks (Tasks_delete uid tasks) `sublist_of` tasks /\
  (length tasks <= S (length (res_tasks (Tasks_delete uid tasks))))%nat.
Proof.
  unfold Tasks_delete. destruct (find_task uid tasks) as [[i|]|e] eqn:Hfind; simpl.
  - split; [apply sublist_delete|].
    destruct (find_task_Some_inv uid tasks i Hfind) as (t & Hi & _).
    rewrite length_delete by eauto. lia.
  - split; [done|lia].
  - split; [done|lia].
Qed.

(** X7. [done] and [delete] end with an exception in one case only: the
    collection is not empty and [uuid.UUID] rejects the identifier; the
    exception is then [ValueError]. *)
Theorem done_delete_raise_iff (now : Z) (uid : string) (tasks : list Task) (e : exn) :
  (res_exn (Tasks_done now uid tasks) = Some e <->
   e = ValueError /\ tasks <> [] /\ uuid_UUID uid = None) /\
  (res_exn (Tasks_delete uid tasks) = Some e <->
   e = ValueError /\ tasks <> [] /\ uuid_UUID uid = None).
Proof.
  split; split.
  - unfold Tasks_done. destruct (find_task uid tasks) as [[i|]|e'] eqn:Hfind;
      simpl; try done.
    intros [= <-]. by apply find_task_raise_inv.
  - intros (-> & Hne & Hparse). unfold Tasks_done.
    by rewrite (find_task_unparsed uid tasks Hparse Hne).
  - unfold Tasks_delete. destruct (find_task uid tasks) as [[i|]|e'] eqn:Hfind;
      simpl; try done.
    intros [= <-]. by apply find_task_raise_inv.
  - intros (-> & Hne & Hparse). unfold Tasks_delete.
    by rewrite (find_task_unparsed uid tasks Hparse Hne).
Qed.

End Found.

(** ** Unique ids, and add() followed by other actions *)

Section Ids.
Context {L : PyLib}.

Lemma filter_none {A} (P : A -> Prop) `{forall x, Decision (P x)} (l : list A) :
  (forall x, x ∈ l -> ~ P x) -> filter P l = [].
Proof.
  intros Hall. destruct (filter P l) as [|x l'] eqn:E; [done|].
  assert (x ∈ filter P l) as Hin by (rewrite E; left).
  apply list_elem_of_filter in Hin as [HP Hin]. by destruct (Hall x Hin).
Qed.

(** X8. Every action keeps the ids of the collection pairwise distinct:
    [done], [delete] and [report] always, and [add] when the id that
    [uuid.uuid4()] returns is not yet in the collection. *)
Theorem unique_ids_kept (env : Env) (now : Z) (uid name' : string) (priority' : Z)
    (due : option string) (tasks : list Task) :
  NoDup (unique_id <$> tasks) ->
  NoDup (unique_id <$> res_tasks (Tasks_done now uid tasks)) /\
  NoDup (unique_id <$> res_tasks (Tasks_delete uid tasks)) /\
  NoDup (unique_id <$> res_tasks (Tasks_report tasks)) /\
  (env_uuid4 env ∉ unique_id <$> tasks ->
   NoDup (unique_id <$> res_tasks (Tasks_add env name' priority' due tasks))).
Proof.
  intros Hnodup. repeat split.
  - unfold Tasks_done. destruct (find_task uid tasks) as [[i|]|e]; simpl; try done.
    rewrite (list_fmap_alter unique_id (completed_task now) id)
      by (by apply Forall_forall).
    by rewrite list_alter_id.
  - unfold Tasks_delete. destruct (find_task uid tasks) as [[i|]|e]; simpl; try done.
    rewrite list_fmap_delete.
    eapply sublist_NoDup; [exact Hnodup|apply sublist_delete].
  - unfold Tasks_report. simpl. by rewrite sort_tasks_perm.
  - intros Hfresh. unfold Tasks_add.
    destruct (bool_decide (name' = EmptyString)); simpl; [done|].
    rewrite fmap_app. apply NoDup_app. split; [done|]. split.
    + intros u Hu Hin. simpl in Hin. apply list_elem_of_singleton in Hin.
      by subst u.
    + simpl. apply NoDup_singleton.
Qed.

(** X9. After [add] with a non-empty name and an id that is new to the
    collection, [list()] shows exactly one task with that id. *)
Theorem added_task_listed_once (env : Env) (name' : string) (priority' : Z)
    (due : option string) (tasks : list Task) :
  name' <> EmptyString ->
  env_uuid4 env ∉ unique_id <$> tasks ->
  length (filter (fun t => unique_id t = env_uuid4 env)
            (rows (res_out (Tasks_list
               (res_tasks (Tasks_add env name' priority' due tasks))))))
  = 1%nat.
Proof.
  intros Hname Hfresh.
  assert (res_tasks (Tasks_add env name' priority' due tasks)
          = tasks ++ [Task_init (env_now env) (env_uuid4 env) name' priority' due])
    as ->.
  { unfold Tasks_add. by rewrite bool_decide_false. }
  rewrite list_rows, sort_tasks_perm. unfold uncompleted.
  rewrite filter_app, filter_app.
  rewrite (filter_none (fun t => unique_id t = env_uuid4 env)
             (filter (fun task => completed task = None) tasks)).
  - rewrite (filter_cons (fun task => completed task = None)).
    rewrite decide_True by done. rewrite filter_nil.
    rewrite (filter_cons (fun t => unique_id t = env_uuid4 env)).
    rewrite decide_True by done. by rewrite filter_nil.
  - intros t Ht Heq. apply list_elem_of_filter in Ht as [_ Ht].
    apply Hfresh. rewrite <- Heq. apply list_elem_of_fmap. by exists t.
Qed.

(** X10. The identifier that [add] prints can be given back to [done]: when
    [uuid.UUID] reads the printed text as the id of the new task, and that
    id is new to the collection, [done] completes the task that was added
    and leaves the tasks before it as they are. *)
Theorem added_task_done_by_printed_id (env : Env) (now : Z) (name' : string)
    (priority' : Z) (due : option string) (tasks : list Task) :
  name' <> EmptyString ->
  env_uuid4 env ∉ unique_id <$> tasks ->
  uuid_UUID (str_UUID (env_uuid4 env)) = Some (env_uuid4 env) ->
  let added := Tasks_add env name' priority' due tasks in
  res_out added = [Text ("Created task " ++ str_UUID (env_uuid4 env))%string] /\
  Tasks_done now (str_UUID (env_uuid4 env)) (res_tasks added)
  = {| res_tasks :=
         tasks ++ [ {| created := env_now env; completed := Some now; name := name';
                       unique_id := env_uuid4 env; priority := priority';
                       due_date := due |} ];
       res_out := [Text (msg_completed (str_UUID (env_uuid4 env)))];
       res_exn := None |}.
Proof.
  intros Hname Hfresh Hparse added. unfold added, Tasks_add.
  rewrite bool_decide_false by done. simpl. split; [done|].
  set (new := Task_init (env_now env) (env_uuid4 env) name' priority' due).
  unfold Tasks_done.
  rewrite (find_task_first _ (tasks ++ [new]) (length tasks) new).
  - simpl. rewrite (alter_lookup_insert _ (length tasks) _ new).
    + rewrite insert_app_r_alt by lia. by rewrite Nat.sub_diag.
    + by rewrite list_lookup_middle.
  - done.
  - by rewrite list_lookup_middle.
  - intros j t' Hj Hj' Heq. rewrite lookup_app_l in Hj' by done.
    apply Hfresh. change (env_uuid4 env) with (unique_id new).
    rewrite <- Heq. apply list_elem_of_fmap. exists t'. split; [done|].
    by eapply list_elem_of_lookup_2.
Qed.

End Ids.

(** ** main, whatever the command line *)

Section Whole.
Context {L : PyLib}.




(** X12. Whatever the command line and however the run ends, [main] changes
    no file other than [.todo.pickle]. *)
Theorem main_touches_only_pickle_file (args : Args) (env : Env)
    (fs : gmap string file) (path : string) :
  path <> pickle_path ->
  run_fs (main args env fs) !! path = fs !! path.
Proof.
  intros Hpath. unfold main.
  destruct (Tasks_init fs) as [tasks|e]; [|done].
  destruct (res_exn (dispatch args env tasks)); [done|].
  unfold pickle_tasks. destruct (open_wb fs pickle_path); simpl; [|done].
  by rewrite lookup_insert_ne.
Qed.



End Whole.

(** ** The tables of list(), report() and query() *)

Lemma key_lt_irrefl (k : key) : key_lt k k = false.
Proof.
  destruct k as [[b d] p]. unfold key_lt.
  rewrite !bool_decide_true by done. simpl. apply Z.ltb_irrefl.
Qed.

Lemma insert_task_filter (k : key) (x : Task) (l : list Task) :
  filter (fun t => sort_key t = k) (insert_task x l)
  = filter (fun t => sort_key t = k) (x :: l).
Proof.
  induction l as [|y l IH]; simpl; [done|].
  destruct (key_lt (sort_key y) (sort_key x)) eqn:E; [|done].
  rewrite (filter_cons _ y (insert_task x l)), IH.
  rewrite (filter_cons _ x (y :: l)), (filter_cons _ y l), (filter_cons _ x l).
  destruct (decide (sort_key y = k)) as [Hy|Hy];
    destruct (decide (sort_key x = k)) as [Hx|Hx]; try done.
  rewrite Hy, Hx, key_lt_irrefl in E. done.
Qed.

Lemma sort_tasks_filter (k : key) (l : list Task) :
  filter (fun t => sort_key t = k) (sort_tasks l)
  = filter (fun t => sort_key t = k) l.
Proof.
  induction l as [|x l IH]; simpl; [done|].
  rewrite insert_task_filter, !filter_cons. by rewrite IH.
Qed.

Lemma sort_tasks_sorted_id (l : list Task) :
  StronglySorted task_le l -> sort_tasks l = l.
Proof.
  induction 1 as [|x l Hl IH Hx]; simpl; [done|].
  fold (sort_tasks l). rewrite IH.
  destruct l as [|y l']; simpl; [done|].
  apply Forall_cons in Hx as [Hxy _]. unfold task_le in Hxy. by rewrite Hxy.
Qed.

Lemma bind_singleton_id {A} (l : list A) : l ≫= (fun x => [x]) = l.
Proof. induction l as [|x l IH]; [done|]. rewrite bind_cons. simpl. by rewrite IH. Qed.

Lemma prefix_spec (a b : string) :
  String.prefix a b = true <-> exists post, b = (a ++ post)%string.
Proof.
  revert b. induction a as [|c a IH]; intros b.
  - split; [intros _; by exists b|by destruct b].
  - destruct b as [|c' b]; simpl.
    + split; [done|]. by intros [post Hpost].
    + destruct (ascii_dec c c') as [->|Hne].
      * rewrite IH. split; intros [post Hpost]; exists post.
        -- by rewrite Hpost.
        -- simpl in Hpost. by injection Hpost.
      * split; [done|]. intros [post Hpost]. simpl in Hpost.
        injection Hpost as Hc _. by destruct Hne.
Qed.

Lemma py_in_spec (a b : string) :
  py_in a b = true <-> exists pre post, b = (pre ++ a ++ post)%string.
Proof.
  induction b as [|c b IH].
  - change (py_in a EmptyString)
      with (if String.prefix a EmptyString then true else false).
    destruct (String.prefix a EmptyString) eqn:E.
    + split; [|done]. intros _. apply prefix_spec in E as [post Hpost].
      by exists EmptyString, post.
    + split; [done|]. intros (pre & post & H).
      destruct pre; [|done]. simpl in H.
      assert (String.prefix a EmptyString = true) as E'
        by (apply prefix_spec; by exists post).
      congruence.
  - change (py_in a (String c b))
      with (if String.prefix a (String c b) then true else py_in a b).
    destruct (String.prefix a (String c b)) eqn:E.
    + split; [|done]. intros _. apply prefix_spec in E as [post Hpost].
      by exists EmptyString, post.
    + rewrite IH. split.
      * intros (pre & post & ->). by exists (String c pre), post.
      * intros (pre & post & H). destruct pre as [|c' pre]; simpl in H.
        -- assert (String.prefix a (String c b) = true) as E'
             by (apply prefix_spec; by exists post).
           congruence.
        -- injection H as _ ->. by exists pre, post.
Qed.

Lemma substring_length_le (s : string) (n m : nat) :
  (String.length (substring n m s) <= m)%nat.
Proof.
  revert n m. induction s as [|c s IH]; intros [|n] [|m]; simpl; try lia.
  - specialize (IH O m). lia.
  - apply IH.
  - apply IH.
Qed.

(** X15. [list()] prints the header and one row for each open task, and no
    other row: a task is in the table exactly when it is in the collection
    with no completion time. *)
Theorem list_shows_exactly_open_tasks (tasks : list Task) (t : Task) :
  (t ∈ rows (res_out (Tasks_list tasks)) <-> t ∈ tasks /\ completed t = None) /\
  length (res_out (Tasks_list tasks)) = S (length (uncompleted tasks)).
Proof.
  split.
  - rewrite list_rows, sort_tasks_perm. unfold uncompleted.
    rewrite list_elem_of_filter. tauto.
  - unfold Tasks_list, print_tasks. simpl.
    by rewrite length_map, sort_tasks_perm.
Qed.

(** X16. [report()] shows every task of the collection, open or done, each
    once, and keeps them all in the stored collection. *)
Theorem report_shows_all_tasks (tasks : list Task) :
  rows (res_out (Tasks_report tasks)) ≡ₚ tasks /\
  res_tasks (Tasks_report tasks) ≡ₚ tasks.
Proof.
  unfold Tasks_report. simpl. rewrite rows_report_rows.
  split; apply sort_tasks_perm.
Qed.

(** X17. The rows of [report()] are in the ordering of the sort key: tasks
    with a due date first, then the due-date texts in ascending order as
    Python compares strings (not the days they denote), then ascending
    priorities; completed tasks are not set apart. *)
Theorem report_display_order (tasks : list Task) (i j : nat) (ti tj : Task) :
  (i < j)%nat ->
  rows (res_out (Tasks_report tasks)) !! i = Some ti ->
  rows (res_out (Tasks_report tasks)) !! j = Some tj ->
  displayed_before ti tj.
Proof.
  unfold Tasks_report. simpl. rewrite rows_report_rows. apply sort_tasks_order.
Qed.

(** X18. [report()] on a collection that [report()] has sorted changes
    nothing: it prints the same table and leaves the same stored order. *)
Theorem report_twice (tasks : list Task) :
  Tasks_report (res_tasks (Tasks_report tasks)) = Tasks_report tasks.
Proof.
  unfold Tasks_report. simpl.
  by rewrite (sort_tasks_sorted_id _ (sort_tasks_sorted tasks)).
Qed.

(** X19. The sort is stable: tasks with the same due date and the same
    priority are shown by [list()], and stored by [report()], in the order
    they had in the collection. *)
Theorem equal_keys_keep_stored_order (k : key) (tasks : list Task) :
  filter (fun t => sort_key t = k) (rows (res_out (Tasks_list tasks)))
  = filter (fun t => sort_key t = k) (uncompleted tasks) /\
  filter (fun t => sort_key t = k) (res_tasks (Tasks_report tasks))
  = filter (fun t => sort_key t = k) tasks.
Proof.
  split.
  - rewrite list_rows. apply sort_tasks_filter.
  - unfold Tasks_report. simpl. apply sort_tasks_filter.
Qed.

(** X20. A task whose due date is the empty text is printed with "-" in the
    Due Date column, like a task without due date, but it is sorted with
    the dated tasks and before all of them: every row above it also has
    the empty text as due date. *)
Theorem empty_due_date_sorts_first (tasks : list Task) (i j : nat) (ti tj : Task) :
  (i < j)%nat ->
  rows (res_out (Tasks_list tasks)) !! i = Some ti ->
  rows (res_out (Tasks_list tasks)) !! j = Some tj ->
  due_date tj = Some EmptyString ->
  due_date ti = Some EmptyString /\
  due_date_string ti = "-"%string /\ due_date_string tj = "-"%string.
Proof.
  rewrite list_rows. intros Hij Hi Hj Hdue.
  destruct (sort_tasks_order _ i j ti tj Hij Hi Hj) as (Hnone & Hle & _).
  assert (due_date ti = Some EmptyString) as Hti.
  { destruct (due_date ti) as [di|] eqn:E.
    - specialize (Hle di EmptyString eq_refl Hdue). by destruct di.
    - rewrite (Hnone eq_refl) in Hdue. done. }
  unfold due_date_string. by rewrite Hti, Hdue.
Qed.

Section Query.
Context {L : PyLib}.

(** X21. [query(terms)] shows a task exactly when it is in the collection
    with no completion time and the lower-cased text of some term occurs in
    its lower-cased name. *)
Theorem query_shows_matching_open_tasks (terms : list string) (tasks : list Task)
    (t : Task) :
  t ∈ rows (res_out (Tasks_query terms tasks)) <->
  t ∈ tasks /\ completed t = None /\
  exists term pre post,
    term ∈ terms /\
    str_lower (name t) = (pre ++ str_lower term ++ post)%string.
Proof.
  unfold Tasks_query, print_tasks. simpl.
  rewrite rows_list_rows, query_tasks_bind, list_elem_of_bind.
  split.
  - intros (y & Hrep & Hy).
    apply elem_of_replicate in Hrep as [-> Hlen].
    rewrite sort_tasks_perm in Hy. unfold uncompleted in Hy.
    apply list_elem_of_filter in Hy as [Hopen Hy].
    split; [done|]. split; [done|].
    destruct (matching_terms terms y) as [|term ms] eqn:E; [done|].
    assert (term ∈ matching_terms terms y) as Hterm by (rewrite E; left).
    unfold matching_terms in Hterm.
    apply list_elem_of_filter in Hterm as [Hin Hterm].
    apply py_in_spec in Hin as (pre & post & Hin).
    by exists term, pre, post.
  - intros (Hin & Hopen & term & pre & post & Hterm & Hname).
    exists t. split.
    + apply elem_of_replicate. split; [done|].
      assert (term ∈ matching_terms terms t) as Hm.
      { unfold matching_terms. apply list_elem_of_filter. split; [|done].
        apply py_in_spec. by exists pre, post. }
      destruct (matching_terms terms t); [|done].
      by apply not_elem_of_nil in Hm.
    + rewrite sort_tasks_perm. unfold uncompleted.
      by apply list_elem_of_filter.
Qed.

(** X22. The empty text occurs in every name: when [''.lower()] is [''],
    [query] on the one term [''] prints the table of [list()]. *)
Theorem query_empty_term_lists_all (tasks : list Task) :
  str_lower EmptyString = EmptyString ->
  res_out (Tasks_query [EmptyString] tasks) = res_out (Tasks_list tasks).
Proof.
  intros Hlower. unfold Tasks_query, Tasks_list. simpl. f_equal.
  rewrite query_tasks_bind.
  rewrite (list_bind_ext _ (fun x => [x]) _ (sort_tasks (uncompleted tasks)));
    [by rewrite bind_singleton_id| |done].
  intros task. unfold matching_terms. rewrite filter_cons, Hlower.
  rewrite decide_True; [done|].
  by destruct (str_lower (name task)).
Qed.

(** X23. The id that the tables show is the first eight characters of the
    full id. With a [uuid.UUID] that rejects every text shorter than 32
    characters, [done] and [delete] on a non-empty collection end with
    [ValueError] on every id as the tables show it. *)
Theorem displayed_id_is_rejected (now : Z) (t : Task) (tasks : list Task) :
  (forall s, (String.length s < 32)%nat -> uuid_UUID s = None) ->
  tasks <> [] ->
  Tasks_done now (short_id t) tasks
  = {| res_tasks := tasks; res_out := []; res_exn := Some ValueError |} /\
  Tasks_delete (short_id t) tasks
  = {| res_tasks := tasks; res_out := []; res_exn := Some ValueError |}.
Proof.
  intros Hshort Hne.
  assert (uuid_UUID (short_id t) = None) as Hparse.
  { apply Hshort. unfold short_id.
    pose proof (substring_length_le (str_UUID (unique_id t)) 0 8). lia. }
  unfold Tasks_done, Tasks_delete.
  by rewrite (find_task_unparsed _ tasks Hparse Hne).
Qed.

End Query.

(** ** The further properties on sample data *)

Lemma sample_ids_distinct : NoDup (unique_id <$> [task_report; task_milk]).
Proof.
  vm_compute. apply NoDup_cons. split; [|apply NoDup_singleton].
  intros Hin. apply list_elem_of_singleton in Hin. discriminate.
Qed.

Lemma drop_hyphens_length (s : string) :
  (String.length (drop_hyphens s) <= String.length s)%nat.
Proof.
  induction s as [|c s IH]; simpl; [lia|].
  destruct (bool_decide (c = "-"%char)); simpl; lia.
Qed.

Lemma UUID_of_str_short (s : string) :
  (String.length s < 32)%nat -> UUID_of_str s = None.
Proof.
  intros Hlen. unfold UUID_of_str.
  rewrite bool_decide_false; [done|].
  pose proof (drop_hyphens_length s). lia.
Qed.

Lemma done_completes_first_match_witness :
  Tasks_done 5000 id_a_str [task_report; task_milk; task_soy]
  = {| res_tasks :=
         [task_report;
          mkTask 1000 (Some 5000) "Buy milk" id_a 2 (Some "01/01/2024"%string);
          task_soy];
       res_out := [Text (msg_completed id_a_str)];
       res_exn := None |}.
Proof.
  apply (done_completes_first_match 5000 id_a_str
           [task_report; task_milk; task_soy] 1 task_milk).
  - vm_compute. reflexivity.
  - reflexivity.
  - intros [|j] t' Hj Hj'; [|lia]. injection Hj' as <-. vm_compute. discriminate.
Defined.

Lemma delete_removes_first_match_witness :
  Tasks_delete id_a_str [task_report; task_milk; task_soy]
  = {| res_tasks := [task_report; task_soy];
       res_out := [Text (msg_deleted id_a_str)];
       res_exn := None |}.
Proof.
  apply (delete_removes_first_match id_a_str
           [task_report; task_milk; task_soy] 1 task_milk).
  - vm_compute. reflexivity.
  - reflexivity.
  - intros [|j] t' Hj Hj'; [|lia]. injection Hj' as <-. vm_compute. discriminate.
Defined.

Lemma deleted_id_not_found_witness :
  Tasks_done 5000 id_a_str [task_report]
  = {| res_tasks := [task_report]; res_out := [Text (msg_not_found id_a_str)];
       res_exn := None |}.
Proof.
  pose proof (deleted_id_not_found 5000 id_a_str [task_report; task_milk] 1 task_milk
                sample_ids_distinct eq_refl eq_refl) as H.
  cbv zeta in H. destruct H as (_ & H & _). exact H.
Defined.

Lemma done_moves_task_to_report_witness :
  completed_task 5000 task_milk
  ∈ rows (res_out (Tasks_report
                     (res_tasks (Tasks_done 5000 id_a_str [task_report; task_milk])))).
Proof.
  pose proof (done_moves_task_to_report 5000 id_a_str [task_report; task_milk] 1
                task_milk sample_ids_distinct eq_refl eq_refl) as H.
  cbv zeta in H. destruct H as (_ & H). exact H.
Defined.

Lemma unique_ids_kept_witness :
  NoDup (unique_id <$> res_tasks (Tasks_delete id_a_str [task_report; task_milk])) /\
  NoDup (unique_id <$>
           res_tasks (Tasks_add (mkEnv 5000 13) "Water plants" 1 None
                        [task_report; task_milk])).
Proof.
  destruct (unique_ids_kept (mkEnv 5000 13) 5000 id_a_str "Water plants" 1 None
              [task_report; task_milk] sample_ids_distinct)
    as (_ & Hdelete & _ & Hadd).
  split; [exact Hdelete|]. apply Hadd.
  vm_compute. intros Hin.
  apply elem_of_cons in Hin as [Hin|Hin]; [discriminate|].
  apply list_elem_of_singleton in Hin. discriminate.
Defined.

Lemma added_task_listed_once_witness :
  length (filter (fun t => unique_id t = 13%N)
            (rows (res_out (Tasks_list
               (res_tasks (Tasks_add (mkEnv 5000 13) "Water plants" 1 None
                             [task_milk]))))))
  = 1%nat.
Proof.
  apply (added_task_listed_once (mkEnv 5000 13) "Water plants" 1 None [task_milk]).
  - discriminate.
  - vm_compute. intros Hin. apply list_elem_of_singleton in Hin. discriminate.
Defined.

Lemma added_task_done_by_printed_id_witness :
  Tasks_done 6000 id_b_str
    (res_tasks (Tasks_add (mkEnv 5000 id_b) "Write report" 1 None [task_milk]))
  = {| res_tasks :=
         [task_milk; mkTask 5000 (Some 6000) "Write report" id_b 1 None];
       res_out := [Text (msg_completed id_b_str)];
       res_exn := None |}.
Proof.
  apply (added_task_done_by_printed_id (mkEnv 5000 id_b) 6000 "Write report" 1 None
           [task_milk]).
  - discriminate.
  - vm_compute. intros Hin. apply list_elem_of_singleton in Hin. discriminate.
  - vm_compute. reflexivity.
Defined.


Lemma main_touches_only_pickle_file_witness :
  run_fs (main (only_delete id_a_str) (mkEnv 5000 13) fs_with_notes)
    !! "notes.txt"%string
  = Some (Regular []).
Proof.
  rewrite (main_touches_only_pickle_file (only_delete id_a_str) (mkEnv 5000 13)
             fs_with_notes "notes.txt").
  - reflexivity.
  - discriminate.
Defined.


Lemma report_display_order_witness : displayed_before task_milk task_report.
Proof.
  apply (report_display_order [task_report; task_milk] 0 1);
    [lia | reflexivity | reflexivity].
Defined.

Lemma empty_due_date_sorts_first_witness :
  due_date task_bank = Some EmptyString /\
  due_date_string task_bank = "-"%string /\ due_date_string task_post = "-"%string.
Proof.
  apply (empty_due_date_sorts_first [task_milk; task_post; task_report; task_bank]
           0 1 task_bank task_post);
    [lia | reflexivity | reflexivity | reflexivity].
Defined.

(** The rows of that table: the two tasks entered with [--due ''] stand
    above the dated task, although their Due Date column reads "-". *)
Example empty_due_date_table :
  rows (res_out (Tasks_list [task_milk; task_post; task_report; task_bank]))
  = [task_bank; task_post; task_milk; task_report].
Proof. reflexivity. Qed.

Lemma query_empty_term_lists_all_witness :
  res_out (Tasks_query [EmptyString] [task_report; task_milk])
  = res_out (Tasks_list [task_report; task_milk]).
Proof.
  apply (query_empty_term_lists_all (L := reference_lib) [task_report; task_milk]).
  reflexivity.
Defined.

Lemma displayed_id_is_rejected_witness :
  short_id task_milk = short_id_a /\
  Tasks_done 5000 (short_id task_milk) [task_milk]
  = {| res_tasks := [task_milk]; res_out := []; res_exn := Some ValueError |}.
Proof.
  split; [reflexivity|].
  apply (displayed_id_is_rejected (L := reference_lib) 5000 task_milk [task_milk]
           UUID_of_str_short).
  discriminate.
Defined.
